(** * Verification of train-ml-bot.py (schnapsen)

    The script generates a labelled dataset by self-play
    ([create_dataset]) and then trains one classifier per point of a
    hyper-parameter grid.  The game engine, the bots, the feature
    extractor and the classifier are collaborators of the script: they
    are kept abstract in the class [Engine].  The script itself is
    embedded in a small state-and-exception monad over a [store] that
    holds the local variables of [create_dataset], the file system and
    the state of the collaborators. *)

From Stdlib Require Import ZArith QArith Ascii.
From stdpp Require Import gmap strings list fin_maps pretty.

Local Open Scope string_scope.
Local Open Scope list_scope.
Local Open Scope Z_scope.

(** ** Python exceptions raised by the script itself *)

Inductive exn : Type :=
| UnboundLocalError
| StopIteration
| FileNotFoundError
| UnpicklingError
| TypeError.

(** ** itertools.cycle

    Transcribed from the reference implementation of the Python
    documentation:
<<
    def cycle(iterable):
        saved = []
        for element in iterable:
            yield element
            saved.append(element)
        while saved:
            for element in saved:
                yield element
>>
    [pending] is what the running [for] still has to yield, [saved] the
    copy, and [first_pass] tells whether the running [for] is the one
    that fills [saved]. *)

Module itertools.

Record cycle (A : Type) : Type := Cycle {
  pending : list A;
  saved : list A;
  first_pass : bool
}.
Arguments Cycle {A}.
Arguments pending {A}.
Arguments saved {A}.
Arguments first_pass {A}.

Definition make {A} (iterable : list A) : cycle A :=
  Cycle iterable [] true.

(** [next c] is [None] when Python raises StopIteration. *)
Definition next {A} (c : cycle A) : option (A * cycle A) :=
  match pending c with
  | element :: rest =>
      Some (element,
            Cycle rest
                  (if first_pass c then saved c ++ [element] else saved c)
                  (first_pass c))
  | [] =>
      match saved c with
      | element :: rest => Some (element, Cycle rest (saved c) false)
      | [] => None
      end
  end.

(** [take n c]: the first [n] elements the iterator yields. *)
Fixpoint take {A} (n : nat) (c : cycle A) : list A :=
  match n with
  | O => []
  | S n' =>
      match next c with
      | Some (x, c') => x :: take n' c'
      | None => []
      end
  end.

End itertools.

(** ** The collaborators *)

(** The configuration handed to [MLPClassifier(...)]. *)
Record MLPClassifier : Type := {
  hidden_layer_sizes : list Z;
  learning_rate_init : Q;
  alpha : Q;
  verbose : bool;
  early_stopping : bool;
  n_iter_no_change : Z
}.

(** [World] is whatever the collaborators keep between calls (the random
    generator, a bot's memory).  The calls that may use it thread it;
    the queries on a state are functions of the state.  A call of a
    collaborator is taken to return and to leave its arguments as they
    are; the exceptions of the collaborators are not part of the model,
    the loop that may not end is (see [play]). *)
Class Engine : Type := {
  State : Type;
  Move : Type;
  Vector : Type;
  Bot : Type;
  Model : Type;
  World : Type;
  (* api.State *)
  generate : Z -> World -> State * World;
  finished : State -> bool;
  get_phase : State -> Z;
  whose_turn : State -> Z;
  clone : State -> Z -> State;
  next : State -> Move -> World -> State * World;
  winner : State -> Z * Z;
  (* bots.ml.ml.features *)
  features : State -> Vector;
  (* bot.get_move *)
  get_move : Bot -> State -> World -> Move * World;
  (* rand.Bot(), rdeep.Bot(), bully.Bot() *)
  rand_Bot : Bot;
  rdeep_Bot : Bot;
  bully_Bot : Bot;
  (* learner.fit(data, target) *)
  fit : MLPClassifier -> list Vector -> list string -> World -> Model * World
}.

(** ** The store *)

Section Script.

Context `{E : Engine}.

(** What a regular file holds.  The file system maps the paths, as
    they are written, to regular files; every path is taken to be
    writable. *)
Inductive node : Type :=
| PickleFile (d : list Vector * list string)
| JoblibFile (m : Model)
| OtherFile.

(** Ghost record of one decision point: the state the loop was in, the
    argument of [features], the argument of [get_move], the move it
    returned and the state that [state.next(move)] returned. *)
Record decision : Type := Decision {
  d_state : State;
  d_features_arg : State;
  d_get_move_arg : State;
  d_move : Move;
  d_next : State
}.

(** Ghost record of one simulated game. *)
Record game_log : Type := GameLog {
  g_index : Z;
  g_player : Bot;
  g_start : State;
  g_decisions : list decision;
  g_final : State;
  g_winner : Z
}.

(** Ghost record of one classifier fit and dump. *)
Record fit_log : Type := FitLog {
  f_n_layers : Z;
  f_size : Z;
  f_learner : MLPClassifier;
  f_path : string
}.

Record store : Type := Store {
  (* locals of create_dataset *)
  data : list Vector;
  target : list string;
  result : option string;
  player_list : option (itertools.cycle Bot);
  (* the environment *)
  world : World;
  fs : gmap string node;
  (* ghost state *)
  history : list game_log;
  fits : list fit_log
}.

Definition set_data (f : list Vector -> list Vector) (s : store) : store :=
  Store (f (data s)) (target s) (result s) (player_list s)
        (world s) (fs s) (history s) (fits s).
Definition set_target (f : list string -> list string) (s : store) : store :=
  Store (data s) (f (target s)) (result s) (player_list s)
        (world s) (fs s) (history s) (fits s).
Definition set_result (r : option string) (s : store) : store :=
  Store (data s) (target s) r (player_list s)
        (world s) (fs s) (history s) (fits s).
Definition set_player_list (c : option (itertools.cycle Bot)) (s : store) : store :=
  Store (data s) (target s) (result s) c
        (world s) (fs s) (history s) (fits s).
Definition set_world (w : World) (s : store) : store :=
  Store (data s) (target s) (result s) (player_list s)
        w (fs s) (history s) (fits s).
Definition set_fs (f : gmap string node -> gmap string node) (s : store) : store :=
  Store (data s) (target s) (result s) (player_list s)
        (world s) (f (fs s)) (history s) (fits s).
Definition set_history (f : list game_log -> list game_log) (s : store) : store :=
  Store (data s) (target s) (result s) (player_list s)
        (world s) (fs s) (f (history s)) (fits s).
Definition set_fits (f : list fit_log -> list fit_log) (s : store) : store :=
  Store (data s) (target s) (result s) (player_list s)
        (world s) (fs s) (history s) (f (fits s)).

(** ** The monad *)

Inductive res (A : Type) : Type :=
| Ret (a : A) (s : store)
| Raise (e : exn) (s : store)
| OutOfFuel.
Arguments Ret {A}.
Arguments Raise {A}.
Arguments OutOfFuel {A}.

Definition M (A : Type) : Type := store -> res A.

Definition ret {A} (a : A) : M A := fun s => Ret a s.
Definition raise {A} (e : exn) : M A := fun s => Raise e s.
Definition bind {A B} (m : M A) (k : A -> M B) : M B :=
  fun s =>
    match m s with
    | Ret a s' => k a s'
    | Raise e s' => Raise e s'
    | OutOfFuel => OutOfFuel
    end.
Definition gets {A} (f : store -> A) : M A := fun s => Ret (f s) s.
Definition modify (f : store -> store) : M unit := fun s => Ret tt (f s).

#[global] Instance M_bind : MBind M := fun A B k m => bind m k.
#[global] Instance M_ret : MRet M := fun A a => ret a.

(** [for x in l: body x] *)
Fixpoint for_each {A} (body : A -> M unit) (l : list A) : M unit :=
  match l with
  | [] => ret tt
  | x :: l' => body x ;; for_each body l'
  end.

(** [range(n)] *)
Definition range (n : Z) : list Z :=
  map Z.of_nat (seq 0 (Z.to_nat n)).

(** ** create_dataset *)

(** The [player] argument: one bot, or a list of bots. *)
Inductive player_arg : Type :=
| Single (b : Bot)
| Roster (l : list Bot).

(** Calls into the collaborators. *)
Definition call_generate (phase : Z) : M State :=
  fun s => let '(st, w) := generate phase (world s) in Ret st (set_world w s).
Definition call_get_move (player : Bot) (given_state : State) : M Move :=
  fun s =>
    let '(mv, w) := get_move player given_state (world s) in
    Ret mv (set_world w s).
Definition call_next (state : State) (move : Move) : M State :=
  fun s => let '(st, w) := next state move (world s) in Ret st (set_world w s).

(** [player = next(player_list)] when [multiple_bots], that is when
    [isinstance(player, list)]; the argument itself otherwise.
    [player_list] is bound only in the first case. *)
Definition choose_player (player : player_arg) : M Bot :=
  match player with
  | Single b => ret b
  | Roster _ =>
      c ← gets player_list;
      match c with
      | None => raise UnboundLocalError
      | Some c =>
          match itertools.next c with
          | None => raise StopIteration
          | Some (b, c') => modify (set_player_list (Some c')) ;; ret b
          end
      end
  end.

(** [state.clone(signature=state.whose_turn()) if state.get_phase() == 1
    else state] *)
Definition given_state_of (state : State) : State :=
  if get_phase state =? 1 then clone state (whose_turn state) else state.

(** The [while not state.finished()] loop.  [trail] is the ghost list of
    the decision points met so far. *)
Fixpoint play (fuel : nat) (player : Bot) (state : State)
    (state_vectors : list Vector) (trail : list decision)
  : M (State * list Vector * list decision) :=
  match fuel with
  | O => fun _ => OutOfFuel
  | S fuel' =>
      if finished state then ret (state, state_vectors, trail)
      else
        let given_state := given_state_of state in
        let state_vectors := state_vectors ++ [features given_state] in
        move ← call_get_move player given_state;
        state' ← call_next state move;
        play fuel' player state' state_vectors
             (trail ++ [Decision state given_state given_state move state'])
  end.

(** The body of [for state_vector in state_vectors]. *)
Definition label_record (winner : Z) (state_vector : Vector) : M unit :=
  modify (set_data (fun d => d ++ [state_vector])) ;;
  (if winner =? 1 then modify (set_result (Some "won"))
   else if winner =? 2 then modify (set_result (Some "lost"))
   else ret tt) ;;
  r ← gets result;
  match r with
  | None => raise UnboundLocalError
  | Some r => modify (set_target (fun t => t ++ [r]))
  end.

(** The first half of the body of [for g in range(games-1)]: one game
    is generated and played to its end, and the winner is asked for.
    The progress bar only writes to the terminal and is left out. *)
Definition simulate (fuel : nat) (player : player_arg) (phase : Z) (g : Z)
  : M (Z * list Vector) :=
  state ← call_generate phase;
  p ← choose_player player;
  '(final, state_vectors, trail) ← play fuel p state [] [];
  let '(winner, score) := winner final in
  modify (set_history (fun h => h ++ [GameLog g p state trail final winner])) ;;
  ret (winner, state_vectors).

(** The body of [for g in range(games-1)]. *)
Definition game_body (fuel : nat) (player : player_arg) (phase : Z) (g : Z)
  : M unit :=
  '(winner, state_vectors) ← simulate fuel player phase g;
  for_each (label_record winner) state_vectors.

(** [with open(path, 'wb') as output: pickle.dump(obj, output)] *)
Definition write_file (path : string) (n : node) : M unit :=
  modify (set_fs (fun f => <[path := n]> f)).

(** The statements before the loop: [data = []], [target = []],
    [result] not yet bound, and [player_list = cycle(player)] when
    [player] is a list. *)
Definition init_locals (player : player_arg) : M unit :=
  modify (set_data (fun _ => [])) ;;
  modify (set_target (fun _ => [])) ;;
  modify (set_result None) ;;
  modify (set_player_list
            (match player with
             | Single _ => None
             | Roster l => Some (itertools.make l)
             end)).

Definition create_dataset (fuel : nat) (path : string) (player : player_arg)
    (games : Z) (phase : Z) : M (list Vector * list string) :=
  init_locals player ;;
  for_each (game_body fuel player phase) (range (games - 1)) ;;
  d ← gets data;
  t ← gets target;
  write_file path (PickleFile (d, t)) ;;
  ret (d, t).

(** ** The script after the definitions *)

(** The parsed command line. *)
Record options : Type := {
  dset_path : string;
  model_path : string;
  overwrite : bool;
  train : bool
}.

(** [os.path.isfile(path)] *)
Definition isfile (f : gmap string node) (path : string) : bool :=
  match f !! path with
  | Some _ => true
  | None => false
  end.

(** [if options.overwrite or not os.path.isfile(options.dset_path):
       create_dataset(options.dset_path, player=[...], games=10000)] *)
Definition generation (fuel : nat) (opts : options) : M unit :=
  f ← gets fs;
  if overwrite opts || negb (isfile f (dset_path opts)) then
    create_dataset fuel (dset_path opts)
                   (Roster [rand_Bot; rdeep_Bot; bully_Bot]) 10000 1 ;;
    ret tt
  else ret tt.

(** [str(n)] on an int *)
Definition str (n : Z) : string := pretty n.

(** [with open(path, 'rb') as output: data, target = pickle.load(output)] *)
Definition read_dataset (path : string) : M (list Vector * list string) :=
  f ← gets fs;
  match f !! path with
  | None => raise FileNotFoundError
  | Some (PickleFile d) => ret d
  | Some (JoblibFile _) => raise TypeError
  | Some OtherFile => raise UnpicklingError
  end.

Definition call_fit (learner : MLPClassifier) (data : list Vector)
    (target : list string) : M Model :=
  fun s =>
    let '(m, w) := fit learner data target (world s) in Ret m (set_world w s).

Definition number_of_layers_list : list Z := [1; 2; 3; 4].
Definition hidden_layer_sizes_list : list Z := [128; 64; 32; 16].
Definition learning_rate : Q := (1 # 10000)%Q.
Definition regularization_strength : Q := (1 # 10000)%Q.

(** ["model" + str(n_layers) + "x" + str(size) + ".pkl"] *)
Definition model_path_of (n_layers size : Z) : string :=
  "model" +:+ str n_layers +:+ "x" +:+ str size +:+ ".pkl".

(** [[size for _ in range(n_layers)]] *)
Definition layer_sizes (n_layers size : Z) : list Z :=
  map (fun _ => size) (range n_layers).

Definition learner_of (n_layers size : Z) : MLPClassifier :=
  {| hidden_layer_sizes := layer_sizes n_layers size;
     learning_rate_init := learning_rate;
     alpha := regularization_strength;
     verbose := true;
     early_stopping := true;
     n_iter_no_change := 6 |}.

(** The body of the two nested loops.  The class count and the timings
    are only printed and are left out. *)
Definition sweep_body (dset : string) (n_layers size : Z) : M unit :=
  let model_path := model_path_of n_layers size in
  '(data, target) ← read_dataset dset;
  let learner := learner_of n_layers size in
  model ← call_fit learner data target;
  write_file ("./bots/ml/" +:+ model_path) (JoblibFile model) ;;
  modify (set_fits (fun l =>
    l ++ [FitLog n_layers size learner ("./bots/ml/" +:+ model_path)])).

Definition sweep (dset : string) (layers sizes : list Z) : M unit :=
  for_each (fun n_layers => for_each (sweep_body dset n_layers) sizes) layers.

Definition main (fuel : nat) (opts : options) : M unit :=
  generation fuel opts ;;
  if train opts then
    sweep (dset_path opts) number_of_layers_list hidden_layer_sizes_list
  else ret tt.

(** ** The class count of the sweep

    [count = {}
     for t in target:
         if t not in count: count[t] = 0
         count[t] += 1]
    The dictionary is a finite map; [None] stands for the KeyError that
    [count[t] += 1] raises on a missing key. *)
Definition count_label (count : gmap string Z) (t : string)
  : option (gmap string Z) :=
  let count := if decide (count !! t = None) then <[t := 0]> count else count in
  match count !! t with
  | Some n => Some (<[t := n + 1]> count)
  | None => None
  end.

Fixpoint class_count_from (count : gmap string Z) (target : list string)
  : option (gmap string Z) :=
  match target with
  | [] => Some count
  | t :: target' =>
      match count_label count t with
      | Some count' => class_count_from count' target'
      | None => None
      end
  end.

Definition class_count (target : list string) : option (gmap string Z) :=
  class_count_from ∅ target.

(** ** Vocabulary of the specifications *)

(** [wp m s Q QE QF]: from [s], the computation [m] returns a value and
    a store that satisfy [Q], or raises an exception with a store that
    satisfy [QE], or runs out of fuel and [QF] holds. *)
Definition wp {A} (m : M A) (s : store) (Q : A -> store -> Prop)
    (QE : exn -> store -> Prop) (QF : Prop) : Prop :=
  match m s with
  | Ret a s' => Q a s'
  | Raise e s' => QE e s'
  | OutOfFuel => QF
  end.

(** Only the state of the collaborators differs between [s] and [s']. *)
Definition only_world (s s' : store) : Prop := s' = set_world (world s') s.

(** The games of the engine end: [remaining] bounds the number of moves
    that a state is away from a finished one, and the fuel covers every
    state that [generate] may return. *)
Definition decreasing (remaining : State -> nat) : Prop :=
  forall st mv w,
    finished st = false -> (remaining (next st mv w).1 < remaining st)%nat.

Definition games_end (remaining : State -> nat) (fuel : nat) : Prop :=
  decreasing remaining /\
  forall ph w, (remaining (generate ph w).1 < fuel)%nat.

(** Every finished game names player 1 or player 2 as its winner. *)
Definition winners_ok : Prop :=
  forall st, finished st = true -> (winner st).1 = 1 \/ (winner st).1 = 2.

(** The feature vector buffered at a decision point. *)
Definition decision_vector (d : decision) : Vector :=
  features (d_features_arg d).

Definition game_vectors (g : game_log) : list Vector :=
  map decision_vector (g_decisions g).

(** What the loop does at a decision point met in state [d_state d]. *)
Definition decision_ok (p : Bot) (d : decision) : Prop :=
  finished (d_state d) = false /\
  d_features_arg d = given_state_of (d_state d) /\
  d_get_move_arg d = given_state_of (d_state d) /\
  (exists w, d_move d = (get_move p (d_get_move_arg d) w).1) /\
  (exists w, d_next d = (next (d_state d) (d_move d) w).1).

Definition game_ok (g : game_log) : Prop :=
  finished (g_final g) = true /\
  g_winner g = (winner (g_final g)).1 /\
  Forall (decision_ok (g_player g)) (g_decisions g).

(** The label that the [if]/[elif] of the labelling loop leaves in
    [result], when [r] is what [result] held before ([None]: not bound). *)
Definition effective (winner : Z) (r : option string) : option string :=
  if winner =? 1 then Some "won"
  else if winner =? 2 then Some "lost"
  else r.

(** The store after the records [vs] of one game were given the label [l]. *)
Definition labelled_store (s : store) (vs : list Vector) (l : string) : store :=
  set_target (fun t => t ++ replicate (length vs) l)
    (set_result (Some l) (set_data (fun d => d ++ vs) s)).

(** [l] is the label of the records of game [g], played when [result]
    held [r]. *)
Definition label_of (r : option string) (g : game_log) (l : string) : Prop :=
  match effective (g_winner g) r with
  | Some l' => l = l'
  | None => g_decisions g = []
  end.

(** [result] after the records of [g] were labelled [l]. *)
Definition result_after (r : option string) (g : game_log) (l : string)
  : option string :=
  match g_decisions g with
  | [] => r
  | _ :: _ => Some l
  end.

(** How a game takes its player. *)
Definition player_step (player : player_arg) (s : store) (g : game_log)
    (s' : store) : Prop :=
  match player with
  | Single b => g_player g = b /\ player_list s' = player_list s
  | Roster _ =>
      exists c c',
        player_list s = Some c /\
        itertools.next c = Some (g_player g, c') /\
        player_list s' = Some c'
  end.

(** What the simulation of one game returns and does to the store. *)
Definition simulate_post (player : player_arg) (phase g : Z) (s : store)
    (r : Z * list Vector) (s' : store) : Prop :=
  exists gl,
    r = (g_winner gl, game_vectors gl) /\
    history s' = history s ++ [gl] /\
    g_index gl = g /\
    g_start gl = (generate phase (world s)).1 /\
    game_ok gl /\
    player_step player s gl s' /\
    data s' = data s /\
    target s' = target s /\
    result s' = result s /\
    fs s' = fs s /\
    fits s' = fits s.

(** What one turn of the loop over the games does to the store. *)
Definition game_post (player : player_arg) (phase g : Z) (s s' : store)
  : Prop :=
  exists gl l,
    history s' = history s ++ [gl] /\
    g_index gl = g /\
    g_start gl = (generate phase (world s)).1 /\
    game_ok gl /\
    player_step player s gl s' /\
    data s' = data s ++ game_vectors gl /\
    target s' = target s ++ replicate (length (g_decisions gl)) l /\
    label_of (result s) gl l /\
    result s' = result_after (result s) gl l /\
    fs s' = fs s /\
    fits s' = fits s.

(** The iterator can still yield. *)
Definition live {A} (c : itertools.cycle A) : Prop :=
  if itertools.first_pass c
  then itertools.pending c <> [] \/ itertools.saved c <> []
  else itertools.saved c <> [].

(** Conditions under which a turn of the loop raises nothing. *)
Definition can_choose (player : player_arg) (s : store) : Prop :=
  match player with
  | Single _ => True
  | Roster _ => exists c, player_list s = Some c /\ live c
  end.

Definition can_label (s : store) : Prop :=
  winners_ok \/ result s <> None.

(** The labels of a run, one block per game: game [g] gets
    [length (g_decisions g)] copies of its label. *)
Definition blocks (new : list game_log) (ls : list string) : list string :=
  concat (zip_with (fun g l => replicate (length (g_decisions g)) l) new ls).

(** [ls] are the labels of the games [new], played in this order from a
    store where [result] held [r]. *)
Fixpoint labelled (r : option string) (new : list game_log) (ls : list string)
  : Prop :=
  match new, ls with
  | [], [] => True
  | g :: new', l :: ls' =>
      label_of r g l /\ labelled (result_after r g l) new' ls'
  | _, _ => False
  end.

(** The players of the games [new], taken from the store [s] on. *)
Definition players_from (player : player_arg) (s : store)
    (new : list game_log) : Prop :=
  match player with
  | Single b => map g_player new = replicate (length new) b
  | Roster _ =>
      forall c,
        player_list s = Some c ->
        map g_player new = itertools.take (length new) c
  end.

(** The loop over the games [gs], from [s] to [s']. *)
Definition run_post (player : player_arg) (gs : list Z) (s s' : store)
    (new : list game_log) (ls : list string) : Prop :=
  history s' = history s ++ new /\
  map g_index new = gs /\
  Forall game_ok new /\
  players_from player s new /\
  data s' = data s ++ concat (map game_vectors new) /\
  target s' = target s ++ blocks new ls /\
  labelled (result s) new ls /\
  fs s' = fs s /\
  fits s' = fits s.

(** The players of a whole run of [create_dataset]. *)
Definition players (player : player_arg) (new : list game_log) : Prop :=
  match player with
  | Single b => map g_player new = replicate (length new) b
  | Roster l =>
      map g_player new = itertools.take (length new) (itertools.make l)
  end.

Definition roster_ok (player : player_arg) : Prop :=
  match player with
  | Single _ => True
  | Roster l => l <> []
  end.

(** What [create_dataset] returns and does to the store. *)
Definition dataset_post (path : string) (player : player_arg) (games : Z)
    (s : store) (r : list Vector * list string) (s' : store)
    (new : list game_log) (ls : list string) : Prop :=
  r = (concat (map game_vectors new), blocks new ls) /\
  data s' = r.1 /\
  target s' = r.2 /\
  history s' = history s ++ new /\
  map g_index new = range (games - 1) /\
  Forall game_ok new /\
  players player new /\
  labelled None new ls /\
  fs s' = <[path := PickleFile r]> (fs s) /\
  fits s' = fits s.

(** The view rule at a decision point: in phase 1 both [features] and
    [get_move] are given the clone signed by the player to move, in any
    other phase both are given the state itself. *)
Definition view_rule (d : decision) : Prop :=
  (get_phase (d_state d) = 1 ->
   d_features_arg d = clone (d_state d) (whose_turn (d_state d)) /\
   d_get_move_arg d = clone (d_state d) (whose_turn (d_state d))) /\
  (get_phase (d_state d) <> 1 ->
   d_features_arg d = d_state d /\ d_get_move_arg d = d_state d).

(** The outcome [r], reached from the store [s], shows that the
    simulation ran: a game was added to the history, or a game was still
    being played when the fuel ran out. *)
Definition simulated {A} (s : store) (r : res A) : Prop :=
  match r with
  | Ret _ s' | Raise _ s' => (length (history s) < length (history s'))%nat
  | OutOfFuel => True
  end.

(** The path an artifact is dumped at. *)
Definition artifact_path (n_layers size : Z) : string :=
  "./bots/ml/" +:+ model_path_of n_layers size.

(** The pairs the two nested loops go through, in their order. *)
Definition grid (layers sizes : list Z) : list (Z * Z) :=
  flat_map (fun n => map (pair n) sizes) layers.

Definition fit_log_of (c : Z * Z) : fit_log :=
  FitLog c.1 c.2 (learner_of c.1 c.2) (artifact_path c.1 c.2).

(** What the sweep over the pairs [cs] does to the store, when the
    dataset file holds [d]. *)
Definition sweep_post (d : list Vector * list string) (cs : list (Z * Z))
    (s s' : store) : Prop :=
  fits s' = fits s ++ map fit_log_of cs /\
  (forall p,
     p ∈ map (fun c => artifact_path c.1 c.2) cs ->
     exists c w0,
       c ∈ cs /\ p = artifact_path c.1 c.2 /\
       fs s' !! p = Some (JoblibFile (fit (learner_of c.1 c.2) d.1 d.2 w0).1)) /\
  (forall p,
     p ∉ map (fun c => artifact_path c.1 c.2) cs -> fs s' !! p = fs s !! p) /\
  data s' = data s /\
  target s' = target s /\
  history s' = history s.

(** The store that the loop over the games starts from. *)
Definition init_store (player : player_arg) (s : store) : store :=
  set_player_list
    (match player with
     | Single _ => None
     | Roster l => Some (itertools.make l)
     end)
    (set_result None
       (set_target (fun _ => []) (set_data (fun _ => []) s))).

(** The number of records of [target] that carry the label [t]. *)
Definition occurrences (t : string) (target : list string) : Z :=
  Z.of_nat (length (filter (fun x => x = t) target)).

(** The sum of the counts of a dictionary. *)
Definition total (count : gmap string Z) : Z :=
  map_fold (fun _ n acc => n + acc) 0 count.

(** The labelling loop failed on the first record of the game that was
    just logged: the game has no winner among 1 and 2, [result] was not
    bound, the first feature vector of the game was appended and no
    label was. *)
Definition label_failure (s : store) (e : exn) (s' : store) : Prop :=
  e = UnboundLocalError /\
  result s = None /\
  exists gl v vs,
    history s' = history s ++ [gl] /\
    game_ok gl /\
    g_winner gl <> 1 /\ g_winner gl <> 2 /\
    game_vectors gl = v :: vs /\
    data s' = data s ++ [v] /\
    target s' = target s /\
    fs s' = fs s /\
    fits s' = fits s.

(** The loop over the games failed: the games before the failing one
    had no decision point, and the failing one is as above. *)
Definition run_failure (s : store) (e : exn) (s' : store) : Prop :=
  e = UnboundLocalError /\
  result s = None /\
  exists new gl v vs,
    history s' = history s ++ new ++ [gl] /\
    Forall (fun g => g_decisions g = []) new /\
    game_ok gl /\
    g_winner gl <> 1 /\ g_winner gl <> 2 /\
    game_vectors gl = v :: vs /\
    data s' = data s ++ [v] /\
    target s' = target s /\
    fs s' = fs s /\
    fits s' = fits s.

(** The decision points [ds] lead from [start] to [final]: the first one
    is met in [start], each next one in the state that [state.next]
    returned at the one before, and the last [state.next] returned
    [final]. *)
Fixpoint chained (start : State) (ds : list decision) (final : State)
  : Prop :=
  match ds with
  | [] => final = start
  | d :: ds' => d_state d = start /\ chained (d_next d) ds' final
  end.

(** The log of a game is a trajectory of the engine: it starts in a
    state that [State.generate(phase)] returned, it ends in a finished
    state, its decision points are chained, and at each of them the
    state is not finished, the move is what [get_move] returned on the
    view of the state and the next state is what [next] returned on the
    state itself and that move. *)
Definition trajectory (phase : Z) (g : game_log) : Prop :=
  (exists w, g_start g = (generate phase w).1) /\
  chained (g_start g) (g_decisions g) (g_final g) /\
  finished (g_final g) = true /\
  Forall (fun d =>
            finished (d_state d) = false /\
            (exists w,
               d_move d =
               (get_move (g_player g) (given_state_of (d_state d)) w).1) /\
            (exists w, d_next d = (next (d_state d) (d_move d) w).1))
         (g_decisions g).

(** The character [c] does not occur in the string [s]. *)
Fixpoint free_of (c : Ascii.ascii) (s : string) : Prop :=
  match s with
  | EmptyString => True
  | String a s' => a <> c /\ free_of c s'
  end.

End Script.

Arguments Ret {E A} a s.
Arguments Raise {E A} e s.
Arguments OutOfFuel {E A}.

(** ** A small engine to run the script on

    A state counts the decision points that are left and carries the
    winner that will be reported; the world is the script of the games
    still to be generated, as pairs (decision points, winner). *)

Module Toy.

Record state : Type := {
  left : nat;
  win : Z;
  ph : Z;
  sig : option Z
}.

(** [draws] tells whether the engine may report a winner other than
    player 1 and player 2.  A game has at most three decision points. *)
Definition engine (draws : bool) : Engine := {|
  State := state;
  Move := nat;
  Vector := nat * bool;
  Bot := string;
  Model := list Z * nat;
  World := list (nat * Z);
  generate phase w :=
    match w with
    | (k, wn) :: w' => (Build_state (Nat.min k 3) wn phase None, w')
    | [] => (Build_state 0 1 phase None, [])
    end;
  finished st := Nat.eqb (left st) 0;
  get_phase st := ph st;
  whose_turn st := 1 + Z.of_nat (left st) mod 2;
  clone st sg := Build_state (left st) (win st) (ph st) (Some sg);
  next st mv w := (Build_state (Nat.pred (left st)) (win st) (ph st) None, w);
  winner st :=
    (if draws then win st else if win st =? 1 then 1 else 2, 66);
  features st := (left st, bool_decide (is_Some (sig st)));
  get_move b st w := (left st, w);
  rand_Bot := "rand";
  rdeep_Bot := "rdeep";
  bully_Bot := "bully";
  fit learner d t w := ((hidden_layer_sizes learner, length d), w)
|}.

Definition store0 (draws : bool) (w : list (nat * Z))
    (f : gmap string (node (E := engine draws)))
  : store (E := engine draws) :=
  Store (E := engine draws) [] [] None None w f [] [].

End Toy.

(** Runs of the small engine. *)

Module ToyRun.

(** Two games are scripted: two decision points and winner 1, then one
    decision point and winner 2. *)
Definition E0 : Engine := Toy.engine false.
Definition s0 : store (E := E0) := Toy.store0 false [(2%nat, 1); (1%nat, 2)] ∅.
Definition rand : player_arg (E := E0) := Single (E := E0) "rand".

(** The same with an engine that may report a draw; the first game
    reports winner 3, or the second one does. *)
Definition E1 : Engine := Toy.engine true.
Definition draw_first : store (E := E1) :=
  Toy.store0 true [(2%nat, 3); (1%nat, 2)] ∅.
Definition draw_second : store (E := E1) :=
  Toy.store0 true [(2%nat, 1); (3%nat, 3)] ∅.
Definition bully : player_arg (E := E1) := Single (E := E1) "bully".

End ToyRun.

Module ToySweep.

Definition keep : options :=
  {| dset_path := "dataset.pkl"; model_path := "model.pkl";
     overwrite := false; train := true |}.
Definition renew : options :=
  {| dset_path := "dataset.pkl"; model_path := "model.pkl";
     overwrite := true; train := true |}.
Definition d0 : list (Vector (Engine := ToyRun.E0)) * list string :=
  ([(1%nat, true)], ["won"]).
Definition with_file : store (E := ToyRun.E0) :=
  Toy.store0 false [] {["dataset.pkl" := PickleFile (E := ToyRun.E0) d0]}.

End ToySweep.

Module ToyMore.


(** A store whose dataset lies at the path of the first model. *)
Definition aliased : store (E := ToyRun.E0) :=
  Toy.store0 false []
    {["./bots/ml/model1x128.pkl" := PickleFile (E := ToyRun.E0) ToySweep.d0]}.

(** A store without files and without scripted games: every generated
    state is finished. *)
Definition idle : store (E := ToyRun.E0) := Toy.store0 false [] ∅.

Definition no_train : options :=
  {| dset_path := "dataset.pkl"; model_path := "model.pkl";
     overwrite := false; train := false |}.

End ToyMore.

(** * Proofs *)

Section Proofs.

Context `{E : Engine}.

(** ** Rules of [wp] *)

Lemma wp_bind {A B} (m : M A) (k : A -> M B) s Q QE QF :
  wp m s (fun a s' => wp (k a) s' Q QE QF) QE QF ->
  wp (m ≫= k) s Q QE QF.
Proof.
  unfold wp, mbind, M_bind, bind. destruct (m s); auto.
Qed.

Lemma wp_mono {A} (m : M A) s (Q Q' : A -> store -> Prop)
    (QE QE' : exn -> store -> Prop) (QF QF' : Prop) :
  wp m s Q QE QF ->
  (forall a s', Q a s' -> Q' a s') ->
  (forall e s', QE e s' -> QE' e s') ->
  (QF -> QF') ->
  wp m s Q' QE' QF'.
Proof.
  unfold wp. destruct (m s); auto.
Qed.

Lemma wp_ret {A} (a : A) s (Q : A -> store -> Prop) QE QF :
  Q a s -> wp (ret a) s Q QE QF.
Proof. auto. Qed.

Lemma wp_gets {A} (f : store -> A) s (Q : A -> store -> Prop) QE QF :
  Q (f s) s -> wp (gets f) s Q QE QF.
Proof. auto. Qed.

Lemma wp_modify (f : store -> store) s (Q : unit -> store -> Prop) QE QF :
  Q tt (f s) -> wp (modify f) s Q QE QF.
Proof. auto. Qed.

Lemma wp_raise {A} e s (Q : A -> store -> Prop) (QE : exn -> store -> Prop) QF :
  QE e s -> wp (raise e) s Q QE QF.
Proof. auto. Qed.

Lemma wp_returns {A} (m : M A) s Q :
  wp m s Q (fun _ _ => False) False ->
  exists a s', m s = Ret a s' /\ Q a s'.
Proof.
  unfold wp. destruct (m s) as [a s'| |]; [eauto | tauto | tauto].
Qed.

Lemma wp_of_Ret {A} (m : M A) s Q QE QF a s' :
  wp m s Q QE QF -> m s = Ret a s' -> Q a s'.
Proof. unfold wp. intros H Hm. now rewrite Hm in H. Qed.

Lemma only_world_refl s : only_world s s.
Proof. unfold only_world. now destruct s. Qed.

Lemma only_world_trans s1 s2 s3 :
  only_world s1 s2 -> only_world s2 s3 -> only_world s1 s3.
Proof.
  unfold only_world. intros H12 H23. rewrite H23 at 1. rewrite H12.
  reflexivity.
Qed.

(** ** The game loop *)

Lemma wp_play (remaining : State -> nat) fuel p :
  forall st vs tr s,
    wp (play fuel p st vs tr) s
       (fun r s' =>
          finished r.1.1 = true /\
          exists ds,
            r.2 = tr ++ ds /\
            r.1.2 = vs ++ map decision_vector ds /\
            Forall (decision_ok p) ds /\
            only_world s s')
       (fun _ _ => False)
       (~ (decreasing remaining /\ (remaining st < fuel)%nat)).
Proof.
  induction fuel as [|fuel IH]; intros st vs tr s.
  - unfold wp; simpl. intros [_ Hlt]. lia.
  - simpl. destruct (finished st) eqn:Hfin.
    + apply wp_ret. simpl. split; [exact Hfin|].
      exists []. rewrite !app_nil_r. repeat split; auto using only_world_refl.
    + apply wp_bind. unfold wp at 1, call_get_move.
      destruct (get_move p (given_state_of st) (world s)) as [mv w1] eqn:Hmv.
      apply wp_bind. unfold wp at 1, call_next. simpl.
      destruct (next st mv w1) as [st' w2] eqn:Hnx.
      eapply wp_mono; [apply IH | | auto |].
      * intros [[final vs'] tr'] s'. simpl.
        intros (Hf & ds & -> & -> & Hds & Hw). split; [exact Hf|].
        exists (Decision st (given_state_of st) (given_state_of st) mv st'
                  :: ds).
        rewrite <- !app_assoc. simpl.
        split; [reflexivity|]. split; [reflexivity|]. split.
        -- constructor; [|exact Hds].
           repeat split; simpl; auto.
           ++ exists (world s). now rewrite Hmv.
           ++ exists w1. now rewrite Hnx.
        -- eapply only_world_trans; [|exact Hw].
           unfold only_world. reflexivity.
      * intros Hn [Hdec Hlt]. apply Hn. split; [exact Hdec|].
        specialize (Hdec st mv w1 Hfin). rewrite Hnx in Hdec. simpl in Hdec.
        lia.
Qed.

(** ** The labelling loop *)

Lemma effective_idem w r : effective w (effective w r) = effective w r.
Proof.
  unfold effective. destruct (w =? 1); [reflexivity|].
  destruct (w =? 2); reflexivity.
Qed.

Lemma label_record_eq w v s :
  label_record w v s =
  match effective w (result s) with
  | Some l => Ret tt (labelled_store s [v] l)
  | None => Raise UnboundLocalError (set_data (fun d => d ++ [v]) s)
  end.
Proof.
  unfold label_record, effective, labelled_store.
  destruct s as [d t r c w0 f h ft].
  unfold mbind, M_bind, bind, modify, gets, raise, ret; simpl.
  destruct (w =? 1); [reflexivity|].
  destruct (w =? 2); [reflexivity|].
  simpl. destruct r; reflexivity.
Qed.

Lemma labelled_store_cons s v vs l :
  labelled_store (labelled_store s [v] l) vs l = labelled_store s (v :: vs) l.
Proof.
  destruct s as [d t r c w0 f h ft]. unfold labelled_store; simpl.
  unfold set_target, set_result, set_data; simpl.
  now rewrite <- !app_assoc.
Qed.

Lemma label_loop_eq w vs s :
  for_each (label_record w) vs s =
  match vs with
  | [] => Ret tt s
  | v :: _ =>
      match effective w (result s) with
      | Some l => Ret tt (labelled_store s vs l)
      | None => Raise UnboundLocalError (set_data (fun d => d ++ [v]) s)
      end
  end.
Proof.
  revert s. induction vs as [|v vs IH]; intros s; [reflexivity|].
  simpl. unfold mbind, M_bind, bind. rewrite label_record_eq.
  destruct (effective w (result s)) as [l|] eqn:Heff; [|reflexivity].
  rewrite IH. destruct vs as [|v' vs]; [reflexivity|].
  change (result (labelled_store s [v] l)) with (Some l).
  rewrite <- Heff, effective_idem, Heff.
  now rewrite labelled_store_cons.
Qed.

(** ** One turn of the loop over the games *)

Lemma only_world_proj s s' :
  only_world s s' ->
  data s' = data s /\ target s' = target s /\ result s' = result s /\
  player_list s' = player_list s /\ fs s' = fs s /\
  history s' = history s /\ fits s' = fits s.
Proof. intros ->. repeat split. Qed.

Lemma wp_choose_player player s :
  wp (choose_player player) s
     (fun b s' =>
        match player with
        | Single b0 => b = b0 /\ s' = s
        | Roster _ =>
            exists c c',
              player_list s = Some c /\
              itertools.next c = Some (b, c') /\
              s' = set_player_list (Some c') s
        end)
     (fun _ _ => ~ can_choose player s)
     False.
Proof.
  destruct player as [b0|l]; simpl.
  - apply wp_ret. auto.
  - apply wp_bind, wp_gets.
    destruct (player_list s) as [c|] eqn:Hc.
    + destruct (itertools.next c) as [[b c']|] eqn:Hn.
      * apply wp_bind, wp_modify, wp_ret. eauto.
      * apply wp_raise. intros (c0 & Hc0 & Hl).
        injection Hc0 as <-.
        unfold itertools.next in Hn. unfold live in Hl.
        destruct (itertools.pending c); [|discriminate].
        destruct (itertools.saved c); [|discriminate].
        destruct (itertools.first_pass c); intuition congruence.
    + apply wp_raise. intros (c0 & Hc0 & _). discriminate.
Qed.

Lemma wp_simulate (remaining : State -> nat) fuel player phase g s :
  wp (simulate fuel player phase g) s
     (simulate_post player phase g s)
     (fun _ _ => ~ can_choose player s)
     (~ games_end remaining fuel).
Proof.
  unfold simulate. apply wp_bind. unfold wp at 1, call_generate.
  destruct (generate phase (world s)) as [st0 w0] eqn:Hgen.
  apply wp_bind.
  eapply wp_mono; [apply wp_choose_player | | | tauto]; cycle 1.
  { intros e s' Hn Hc. apply Hn. destruct player; simpl in *; auto. }
  intros b s1 Hch. apply wp_bind.
  eapply wp_mono; [apply (wp_play remaining) | | tauto |]; cycle 1.
  { intros Hn [Hdec Hb]. apply Hn. split; [exact Hdec|].
    specialize (Hb phase (world s)). now rewrite Hgen in Hb. }
  intros [[final vs] tr] s2. simpl.
  intros (Hfin & ds & -> & -> & Hds & Hw).
  destruct (winner final) as [wn score] eqn:Hwin.
  apply wp_bind, wp_modify, wp_ret.
  apply only_world_proj in Hw.
  destruct Hw as (Hd & Ht & Hr & Hp & Hf & Hh & Hfi).
  exists (GameLog g b st0 ds final wn). simpl.
  rewrite Hh, Hd, Ht, Hr, Hf, Hfi.
  assert (Hs1 : data s1 = data s /\ target s1 = target s /\
                result s1 = result s /\ fs s1 = fs s /\
                history s1 = history s /\ fits s1 = fits s).
  { destruct player as [b0|l].
    - destruct Hch as [_ ->]. repeat split.
    - destruct Hch as (c & c' & _ & _ & ->). repeat split. }
  destruct Hs1 as (-> & -> & -> & -> & -> & ->).
  split_and!; auto.
  - now rewrite Hgen.
  - repeat split; simpl; auto. now rewrite Hwin.
  - destruct player as [b0|l]; simpl.
    + destruct Hch as [-> ->]. rewrite Hp. auto.
    + destruct Hch as (c & c' & Hc & Hn & ->).
      exists c, c'. rewrite Hp. auto.
Qed.

Lemma wp_game_body (remaining : State -> nat) fuel player phase g s :
  wp (game_body fuel player phase g) s
     (fun _ s' => game_post player phase g s s')
     (fun _ _ => ~ (can_choose player s /\ can_label s))
     (~ games_end remaining fuel).
Proof.
  unfold game_body. apply wp_bind.
  eapply wp_mono; [apply (wp_simulate remaining) | | | tauto]; cycle 1.
  { intros e s' Hn [Hc _]. auto. }
  intros [wn vs] s1
    (gl & [= -> ->] & Hh & Hi & Hst & Hok & Hpl & Hd & Ht & Hr & Hf & Hfi).
  unfold wp. rewrite label_loop_eq. unfold game_vectors.
  destruct (g_decisions gl) as [|d0 ds] eqn:Hds; simpl.
  - exists gl, (default EmptyString (effective (g_winner gl) (result s))).
    rewrite Hds, Hd, Ht, Hr. unfold game_vectors, label_of, result_after.
    rewrite Hds. simpl. rewrite !app_nil_r.
    split_and!; auto.
    now destruct (effective (g_winner gl) (result s)).
  - rewrite Hr.
    destruct (effective (g_winner gl) (result s)) as [l|] eqn:Heff.
    + exists gl, l. simpl.
      rewrite Hd, Ht, Hds. unfold game_vectors, label_of, result_after.
      rewrite Hds, Heff. simpl. rewrite length_map.
      split_and!; auto.
    + intros [_ [Hwo | Hres]].
      * destruct Hok as (Hfin & Hw & _).
        destruct (Hwo _ Hfin) as [H1 | H2]; unfold effective in Heff;
          rewrite Hw in Heff.
        -- rewrite H1 in Heff. discriminate.
        -- rewrite H2 in Heff. discriminate.
      * unfold effective in Heff.
        destruct (g_winner gl =? 1); [discriminate|].
        destruct (g_winner gl =? 2); [discriminate|]. contradiction.
Qed.

(** ** The loop over the games *)

Lemma live_next {A} (c c' : itertools.cycle A) x :
  live c -> itertools.next c = Some (x, c') -> live c'.
Proof.
  unfold live, itertools.next.
  destruct c as [pe sa fp]; simpl.
  destruct pe as [|y pe].
  - destruct sa as [|y sa]; [discriminate|].
    intros _ [= <- <-]. simpl. discriminate.
  - intros Hl [= <- <-]. simpl. destruct fp.
    + right. now destruct sa.
    + exact Hl.
Qed.

Lemma game_post_can_choose player phase g s s' :
  game_post player phase g s s' -> can_choose player s -> can_choose player s'.
Proof.
  intros (gl & l & _ & _ & _ & _ & Hpl & _) Hc.
  destruct player as [b|ro]; simpl in *; [exact I|].
  destruct Hc as (c & Hc & Hl). destruct Hpl as (c0 & c' & Hc0 & Hn & Hc').
  rewrite Hc in Hc0. injection Hc0 as <-.
  exists c'. split; [exact Hc'|]. eapply live_next; eauto.
Qed.

Lemma game_post_can_label player phase g s s' :
  game_post player phase g s s' -> can_label s -> can_label s'.
Proof.
  intros (gl & l & _ & _ & _ & _ & _ & _ & _ & _ & Hr & _) [Hw | Hres].
  - now left.
  - right. rewrite Hr. unfold result_after.
    now destruct (g_decisions gl).
Qed.

Lemma run_post_cons player phase g gs s s1 s' new ls :
  game_post player phase g s s1 ->
  run_post player gs s1 s' new ls ->
  exists gl l, run_post player (g :: gs) s s' (gl :: new) (l :: ls).
Proof.
  intros (gl & l & Hh & Hi & _ & Hok & Hpl & Hd & Ht & Hlab & Hr & Hf & Hfi)
         (Hh' & Hi' & Hok' & Hpl' & Hd' & Ht' & Hlab' & Hf' & Hfi').
  exists gl, l. unfold run_post, blocks in *. simpl.
  rewrite Hh', Hh, Hd', Hd, Ht', Ht, Hf', Hf, Hfi', Hfi, Hi, Hi'.
  rewrite <- !app_assoc. simpl.
  split_and!; auto.
  - destruct player as [b|ro]; simpl in *.
    + destruct Hpl as [-> _]. now rewrite Hpl'.
    + intros c Hc. destruct Hpl as (c0 & c' & Hc0 & Hn & Hc').
      rewrite Hc in Hc0. injection Hc0 as <-.
      rewrite Hn. now rewrite (Hpl' c' Hc').
  - now rewrite <- Hr.
Qed.

Lemma wp_games (remaining : State -> nat) fuel player phase gs :
  forall s,
    wp (for_each (game_body fuel player phase) gs) s
       (fun _ s' =>
          (can_choose player s -> can_choose player s') /\
          exists new ls, run_post player gs s s' new ls)
       (fun _ _ => ~ (can_choose player s /\ can_label s))
       (~ games_end remaining fuel).
Proof.
  induction gs as [|g gs IH]; intros s.
  - apply wp_ret. split; [auto|].
    exists [], []. unfold run_post, blocks. simpl.
    rewrite !app_nil_r. split_and!; auto.
    destruct player as [b|ro]; simpl; auto.
  - simpl. apply wp_bind.
    eapply wp_mono; [apply (wp_game_body remaining) | | auto | auto].
    intros [] s1 Hpost.
    eapply wp_mono; [apply IH | | | auto]; cycle 1.
    { intros e s' Hn [Hc Hl]. apply Hn. split.
      - eapply game_post_can_choose; eauto.
      - eapply game_post_can_label; eauto. }
    intros [] s' (Hch & new & ls & Hrun). split.
    + intros Hc. apply Hch. eapply game_post_can_choose; eauto.
    + destruct (run_post_cons _ _ _ _ _ _ _ _ _ Hpost Hrun) as (gl & l & H).
      eauto.
Qed.

(** ** create_dataset *)

Lemma wp_create_dataset (remaining : State -> nat) fuel path player games
    phase s :
  wp (create_dataset fuel path player games phase) s
     (fun r s' => exists new ls, dataset_post path player games s r s' new ls)
     (fun _ _ => ~ (roster_ok player /\ winners_ok))
     (~ games_end remaining fuel).
Proof.
  unfold create_dataset. apply wp_bind.
  unfold init_locals.
  do 3 apply wp_bind, wp_modify. apply wp_modify.
  apply wp_bind.
  eapply wp_mono; [apply (wp_games remaining) | | | auto]; cycle 1.
  { intros e s' Hn [Hro Hw]. apply Hn. split; [|now left].
    destruct player as [b|ro]; simpl in *; [exact I|].
    eexists; split; [reflexivity|]. unfold live. simpl. now left. }
  intros [] s'
    (_ & new & ls & Hh & Hi & Hok & Hpl & Hd & Ht & Hlab & Hf & Hfi).
  simpl in *.
  apply wp_bind, wp_gets. apply wp_bind, wp_gets.
  apply wp_bind, wp_modify. apply wp_ret.
  exists new, ls. unfold dataset_post. simpl.
  rewrite Hd, Ht, Hf. split_and!; auto.
  destruct player as [b|ro]; simpl in *; auto.
Qed.

Lemma create_dataset_returns (remaining : State -> nat) fuel path player
    games phase s :
  games_end remaining fuel -> roster_ok player -> winners_ok ->
  exists r s' new ls,
    create_dataset fuel path player games phase s = Ret r s' /\
    dataset_post path player games s r s' new ls.
Proof.
  intros Hend Hro Hwin.
  pose proof (wp_create_dataset remaining fuel path player games phase s)
    as H.
  unfold wp in H.
  destruct (create_dataset fuel path player games phase s) as [r s'| |].
  - destruct H as (new & ls & H). eauto 6.
  - tauto.
  - tauto.
Qed.

Lemma create_dataset_Ret fuel path player games phase s r s' :
  create_dataset fuel path player games phase s = Ret r s' ->
  exists new ls, dataset_post path player games s r s' new ls.
Proof.
  intros Heq.
  pose proof (wp_create_dataset (fun _ => O) fuel path player games phase s)
    as H.
  unfold wp in H. now rewrite Heq in H.
Qed.

(** ** Facts on the labels of a run *)

Lemma length_range n : length (range n) = Z.to_nat n.
Proof. unfold range. now rewrite length_map, length_seq. Qed.

Lemma labelled_length r new ls : labelled r new ls -> length ls = length new.
Proof.
  revert r ls. induction new as [|g new IH]; intros r [|l ls]; simpl;
    try tauto.
  intros [_ H]. f_equal. eauto.
Qed.

Lemma length_vectors new :
  length (concat (map game_vectors new)) =
  sum_list (map (fun g => length (g_decisions g)) new).
Proof.
  induction new as [|g new IH]; [reflexivity|]. simpl.
  rewrite length_app, IH. unfold game_vectors. now rewrite length_map.
Qed.

Lemma length_blocks r new ls :
  labelled r new ls ->
  length (blocks new ls) = length (concat (map game_vectors new)).
Proof.
  unfold blocks. revert r ls.
  induction new as [|g new IH]; intros r [|l ls]; simpl; try tauto.
  intros [_ H]. rewrite !length_app, (IH _ _ H).
  unfold game_vectors. now rewrite length_replicate, length_map.
Qed.

Lemma labelled_rule r new ls :
  labelled r new ls ->
  Forall2 (fun g l => (g_winner g = 1 -> l = "won") /\
                      (g_winner g = 2 -> l = "lost")) new ls.
Proof.
  revert r ls. induction new as [|g new IH]; intros r [|l ls]; simpl;
    try tauto.
  - constructor.
  - intros [Hl H]. constructor; [|eauto].
    unfold label_of, effective in Hl.
    split; intros Hw; rewrite Hw in Hl; simpl in Hl; exact Hl.
Qed.

Lemma blocks_won_lost r new ls :
  winners_ok -> Forall game_ok new -> labelled r new ls ->
  Forall (fun l => l = "won" \/ l = "lost") (blocks new ls).
Proof.
  intros Hwin. unfold blocks. revert r ls.
  induction new as [|g new IH]; intros r [|l ls] Hok; simpl; try tauto;
    try constructor.
  intros [Hl H]. inversion Hok as [|? ? (Hfin & Hw & _) Hok']; subst.
  apply Forall_app. split; [|eauto].
  apply Forall_replicate.
  unfold label_of, effective in Hl.
  destruct (Hwin _ Hfin) as [H1 | H2].
  - rewrite Hw, H1 in Hl. simpl in Hl. now left.
  - rewrite Hw, H2 in Hl. simpl in Hl. now right.
Qed.

Lemma labelled_winner_rule r new ls :
  Forall game_ok new -> labelled r new ls ->
  Forall2 (fun g l => g_winner g = (winner (g_final g)).1 /\
                      (g_winner g = 1 -> l = "won") /\
                      (g_winner g = 2 -> l = "lost")) new ls.
Proof.
  intros Hok Hlab. apply labelled_rule in Hlab.
  induction Hlab as [|g l new ls [H1 H2] _ IH]; [constructor|].
  inversion Hok as [|? ? (_ & Hw & _) Hok']; subst.
  constructor; auto.
Qed.

Lemma decision_ok_view_rule p d : decision_ok p d -> view_rule d.
Proof.
  intros (_ & Hf & Hm & _). unfold view_rule, given_state_of in *.
  split; intros Hph.
  - rewrite Hph in *. simpl in *. auto.
  - apply Z.eqb_neq in Hph. rewrite Hph in *. auto.
Qed.

Lemma wp_prefix (remaining : State -> nat) fuel player phase gs s :
  wp (init_locals player ≫= fun _ => for_each (game_body fuel player phase) gs)
     s
     (fun _ s' =>
        (roster_ok player -> can_choose player s') /\
        exists new ls,
          history s' = history s ++ new /\
          data s' = concat (map game_vectors new) /\
          target s' = blocks new ls /\
          labelled None new ls)
     (fun _ _ => ~ (roster_ok player /\ winners_ok))
     (~ games_end remaining fuel).
Proof.
  apply wp_bind. unfold init_locals.
  do 3 apply wp_bind, wp_modify. apply wp_modify.
  eapply wp_mono; [apply (wp_games remaining) | | | auto]; cycle 1.
  { intros e s' Hn [Hro Hw]. apply Hn. split; [|now left].
    destruct player as [b|ro]; simpl in *; [exact I|].
    eexists; split; [reflexivity|]. unfold live. simpl. now left. }
  intros [] s' (Hch & new & ls & Hh & _ & _ & _ & Hd & Ht & Hlab & _).
  simpl in *. split; [|eauto 7].
  intros Hro. apply Hch.
  destruct player as [b|ro]; simpl in *; [exact I|].
  eexists; split; [reflexivity|]. unfold live. simpl. now left.
Qed.

(** ** itertools.cycle yields the list round-robin *)

Lemma take_cycle_lookup {A} (l : list A) :
  l <> [] ->
  forall n (c : itertools.cycle A) pre i,
    pre ++ itertools.pending c = l ->
    itertools.saved c = (if itertools.first_pass c then pre else l) ->
    (i < n)%nat ->
    itertools.take n c !! i = l !! ((length pre + i) mod length l)%nat.
Proof.
  intros Hne. induction n as [|n IH]; intros c pre i Hpre Hsaved Hi; [lia|].
  destruct c as [pe sa fp].
  cbn [itertools.pending itertools.saved itertools.first_pass] in *.
  cbn [itertools.take]. unfold itertools.next.
  cbn [itertools.pending itertools.saved itertools.first_pass].
  destruct pe as [|x pe].
  - rewrite app_nil_r in Hpre. subst pre.
    assert (sa = l) as -> by (now destruct fp).
    destruct l as [|x rest] eqn:El; [congruence|]. rewrite <- El in *.
    destruct i as [|i].
    + rewrite Nat.add_0_r, Nat.Div0.mod_same. now rewrite El.
    + rewrite lookup_cons_ne_0 by lia. cbn [Nat.pred].
      rewrite (IH _ [x] i); cbn [itertools.pending itertools.saved
                                  itertools.first_pass];
        [|now rewrite El|reflexivity|lia].
      f_equal. cbn [length].
      replace (length l + S i)%nat with (1 + i + 1 * length l)%nat by lia.
      now rewrite Nat.Div0.mod_add.
  - assert (Hlt : (length pre < length l)%nat).
    { rewrite <- Hpre, length_app. cbn [length]. lia. }
    destruct i as [|i].
    + rewrite Nat.add_0_r, Nat.mod_small by exact Hlt.
      rewrite <- Hpre. cbn [lookup]. now rewrite list_lookup_middle.
    + rewrite lookup_cons_ne_0 by lia. cbn [Nat.pred].
      rewrite (IH _ (pre ++ [x]) i); cbn [itertools.pending itertools.saved
                                           itertools.first_pass].
      * f_equal. rewrite length_app. cbn [length]. f_equal. lia.
      * now rewrite <- app_assoc.
      * destruct fp; [now rewrite Hsaved | exact Hsaved].
      * lia.
Qed.

Lemma take_make_lookup {A} (l : list A) n i :
  l <> [] -> (i < n)%nat ->
  itertools.take n (itertools.make l) !! i = l !! (i mod length l)%nat.
Proof.
  intros Hne Hi.
  now rewrite (take_cycle_lookup l Hne n (itertools.make l) [] i).
Qed.

(** ** The simulation leaves a trace *)

Lemma wp_conj {A} (m : M A) s (Q1 Q2 : A -> store -> Prop)
    (QE1 QE2 : exn -> store -> Prop) (QF1 QF2 : Prop) :
  wp m s Q1 QE1 QF1 -> wp m s Q2 QE2 QF2 ->
  wp m s (fun a s' => Q1 a s' /\ Q2 a s')
     (fun e s' => QE1 e s' /\ QE2 e s') (QF1 /\ QF2).
Proof. unfold wp. destruct (m s); auto. Qed.

Lemma wp_game_body_history fuel player phase g s :
  can_choose player s ->
  wp (game_body fuel player phase g) s
     (fun _ s' => length (history s') = S (length (history s)))
     (fun _ s' => length (history s') = S (length (history s)))
     True.
Proof.
  intros Hc. unfold game_body. apply wp_bind.
  eapply wp_mono; [apply (wp_simulate (fun _ => O)) | | | auto]; cycle 1.
  { intros e s' Hn. contradiction. }
  intros [wn vs] s1 (gl & _ & Hh & _).
  assert (Hlen : length (history s1) = S (length (history s))).
  { rewrite Hh, length_app. simpl. lia. }
  unfold wp. rewrite label_loop_eq.
  destruct vs as [|v vs]; [exact Hlen|].
  destruct (effective wn (result s1)); exact Hlen.
Qed.

Lemma wp_games_history fuel player phase gs :
  forall s,
    can_choose player s ->
    wp (for_each (game_body fuel player phase) gs) s
       (fun _ s' => length (history s') = (length (history s) + length gs)%nat)
       (fun _ s' => (length (history s) < length (history s'))%nat)
       True.
Proof.
  induction gs as [|g gs IH]; intros s Hc.
  - apply wp_ret. simpl. lia.
  - simpl. apply wp_bind.
    eapply wp_mono;
      [apply (wp_conj _ _ _ _ _ _ _ _
                (wp_game_body_history fuel player phase g s Hc)
                (wp_game_body (fun _ => O) fuel player phase g s))
      | | | auto].
    + intros [] s1 [Hlen Hpost].
      eapply wp_mono; [apply IH | | | auto].
      * eapply game_post_can_choose; eauto.
      * intros [] s'. simpl. lia.
      * intros e s'. simpl. lia.
    + intros e s' [Hlen _]. simpl in *. lia.
Qed.

Lemma create_dataset_simulated fuel path player games phase s :
  roster_ok player -> 2 <= games ->
  simulated s (create_dataset fuel path player games phase s).
Proof.
  intros Hro Hg.
  assert (H : wp (create_dataset fuel path player games phase) s
                 (fun _ s' => (length (history s) < length (history s'))%nat)
                 (fun _ s' => (length (history s) < length (history s'))%nat)
                 True).
  { unfold create_dataset. apply wp_bind. unfold init_locals.
    do 3 apply wp_bind, wp_modify. apply wp_modify.
    apply wp_bind.
    eapply wp_mono; [apply wp_games_history | | | auto].
    - destruct player as [b|ro]; simpl in *; [exact I|].
      eexists; split; [reflexivity|]. unfold live. simpl. now left.
    - intros [] s'. rewrite length_range. simpl. intros Hlen.
      apply wp_bind, wp_gets. apply wp_bind, wp_gets.
      apply wp_bind, wp_modify. apply wp_ret. simpl. lia.
    - auto. }
  unfold wp in H. unfold simulated.
  destruct (create_dataset fuel path player games phase s); auto.
Qed.

(** ** The sweep *)

Lemma sweep_post_nil d s : sweep_post d [] s s.
Proof.
  unfold sweep_post. simpl. rewrite app_nil_r. split_and!; auto.
  intros p Hp. now apply elem_of_nil in Hp.
Qed.

Lemma sweep_post_app d cs1 cs2 s1 s2 s3 :
  sweep_post d cs1 s1 s2 -> sweep_post d cs2 s2 s3 ->
  sweep_post d (cs1 ++ cs2) s1 s3.
Proof.
  intros (Hf1 & Ha1 & Ho1 & Hd1 & Ht1 & Hh1) (Hf2 & Ha2 & Ho2 & Hd2 & Ht2 & Hh2).
  unfold sweep_post. rewrite Hf2, Hf1, Hd2, Hd1, Ht2, Ht1, Hh2, Hh1.
  rewrite map_app, <- app_assoc. split_and!; auto.
  - intros p Hp. rewrite map_app in Hp.
    destruct (decide (p ∈ map (fun c => artifact_path c.1 c.2) cs2))
      as [Hin | Hnin].
    + destruct (Ha2 p Hin) as (c & w0 & Hc & Hpc & Hfs).
      exists c, w0. rewrite elem_of_app. auto.
    + apply elem_of_app in Hp as [Hp | Hp]; [|contradiction].
      destruct (Ha1 p Hp) as (c & w0 & Hc & Hpc & Hfs).
      exists c, w0. rewrite elem_of_app, (Ho2 p Hnin). auto.
  - intros p Hp. rewrite map_app, elem_of_app in Hp.
    rewrite Ho2, Ho1; tauto.
Qed.

Lemma wp_sweep_body dset d n w s :
  fs s !! dset = Some (PickleFile d) ->
  wp (sweep_body dset n w) s
     (fun _ s' => sweep_post d [(n, w)] s s')
     (fun _ _ => False) False.
Proof.
  intros Hd. unfold sweep_body. apply wp_bind.
  unfold wp at 1, read_dataset, mbind, M_bind, bind, gets. rewrite Hd.
  unfold ret. destruct d as [dat tar].
  apply wp_bind. unfold wp at 1, call_fit.
  destruct (fit (learner_of n w) dat tar (world s)) as [m w1] eqn:Hfit.
  apply wp_bind, wp_modify, wp_modify.
  unfold sweep_post. simpl. split_and!; auto.
  - intros p Hp. apply list_elem_of_singleton in Hp as ->.
    exists (n, w), (world s). simpl. rewrite Hfit. simpl.
    split_and!; auto.
    + apply list_elem_of_singleton. reflexivity.
    + apply lookup_insert_eq.
  - intros p Hp. apply lookup_insert_ne. intros <-. apply Hp.
    apply list_elem_of_singleton. reflexivity.
Qed.

Lemma wp_sweep_row dset d n sizes :
  forall s,
    fs s !! dset = Some (PickleFile d) ->
    Forall (fun w => artifact_path n w <> dset) sizes ->
    wp (for_each (sweep_body dset n) sizes) s
       (fun _ s' => sweep_post d (map (pair n) sizes) s s')
       (fun _ _ => False) False.
Proof.
  induction sizes as [|w sizes IH]; intros s Hd Hne.
  - apply wp_ret. apply sweep_post_nil.
  - inversion Hne as [|? ? Hw Hne']; subst.
    simpl. apply wp_bind.
    eapply wp_mono; [apply (wp_sweep_body dset d n w s Hd) | | auto | auto].
    intros [] s1 H1.
    eapply wp_mono; [apply IH | | auto | auto]; auto.
    + destruct H1 as (_ & _ & Ho & _). rewrite Ho; [exact Hd|].
      simpl. intros Hin. apply list_elem_of_singleton in Hin. congruence.
    + intros [] s2 H2.
      apply (sweep_post_app d [(n, w)] _ s s1 s2); assumption.
Qed.

Lemma wp_sweep dset d layers sizes :
  forall s,
    fs s !! dset = Some (PickleFile d) ->
    Forall (fun c => artifact_path c.1 c.2 <> dset) (grid layers sizes) ->
    wp (sweep dset layers sizes) s
       (fun _ s' => sweep_post d (grid layers sizes) s s')
       (fun _ _ => False) False.
Proof.
  unfold sweep, grid.
  induction layers as [|n layers IH]; intros s Hd Hne.
  - apply wp_ret. apply sweep_post_nil.
  - simpl in *. apply Forall_app in Hne as [Hrow Hne].
    apply wp_bind.
    eapply wp_mono; [apply (wp_sweep_row dset d n sizes s Hd) | | auto | auto].
    + rewrite Forall_map in Hrow. exact Hrow.
    + intros [] s1 H1.
      eapply wp_mono; [apply IH | | auto | auto]; auto.
      * destruct H1 as (_ & _ & Ho & _). rewrite Ho; [exact Hd|].
        intros Hin. apply list_elem_of_fmap in Hin as (w & Hw & Hin).
        apply list_elem_of_fmap in Hin as (w' & -> & Hin).
        rewrite Forall_forall in Hrow. apply (Hrow (n, w')); [|easy].
        apply list_elem_of_fmap. eauto.
      * intros [] s2 H2. eapply sweep_post_app; eauto.
Qed.

Lemma layer_sizes_replicate n size :
  layer_sizes n size = replicate (Z.to_nat n) size.
Proof.
  unfold layer_sizes, range. rewrite map_map.
  induction (Z.to_nat n) as [|k IH] using nat_ind; [reflexivity|].
  rewrite seq_S, map_app, IH. simpl.
  now rewrite <- replicate_cons_app.
Qed.

(** ** A first game that decides the fate of the run *)

Lemma create_dataset_eq fuel path player games phase s :
  create_dataset fuel path player games phase s =
  match (init_locals player ≫= fun _ =>
           for_each (game_body fuel player phase) (range (games - 1))) s with
  | Ret _ s' =>
      Ret (data s', target s')
          (set_fs (fun f => <[path := PickleFile (data s', target s')]> f) s')
  | Raise e s' => Raise e s'
  | OutOfFuel => OutOfFuel
  end.
Proof.
  unfold create_dataset, init_locals, mbind, M_bind, bind, modify. simpl.
  destruct (for_each _ _ _) as [[] s1| |]; reflexivity.
Qed.

Lemma range_first n : 1 <= n -> exists rest, range n = 0 :: rest.
Proof.
  intros Hn. unfold range.
  destruct (Z.to_nat n) as [|k] eqn:Hk; [lia|].
  simpl. eauto.
Qed.

Lemma first_game_eq fuel player phase gs s wn vs s1 :
  (init_locals player ≫= fun _ => simulate fuel player phase 0) s
    = Ret (wn, vs) s1 ->
  (init_locals player ≫= fun _ =>
     for_each (game_body fuel player phase) (0 :: gs)) s =
  match for_each (label_record wn) vs s1 with
  | Ret _ s2 => for_each (game_body fuel player phase) gs s2
  | Raise e s2 => Raise e s2
  | OutOfFuel => OutOfFuel
  end.
Proof.
  cbn [for_each].
  cbv beta iota delta [init_locals modify mbind M_bind bind].
  unfold game_body at 1.
  cbv beta iota delta [mbind M_bind bind].
  intros ->. reflexivity.
Qed.

Lemma labelled_stale r new ls :
  labelled r new ls ->
  forall j gp g lp l,
    new !! j = Some gp -> new !! S j = Some g ->
    ls !! j = Some lp -> ls !! S j = Some l ->
    g_decisions gp <> [] -> g_winner g <> 1 -> g_winner g <> 2 ->
    l = lp.
Proof.
  revert r ls. induction new as [|g0 new IH]; intros r [|l0 ls]; simpl;
    try tauto.
  { intros _ j gp g lp l Hj. now rewrite lookup_nil in Hj. }
  intros [Hl0 Hlab] [|j] gp g lp l Hgp Hg Hlp Hl Hne H1 H2.
  - simpl in *. injection Hgp as <-. injection Hlp as <-.
    destruct new as [|g1 new]; [discriminate|].
    destruct ls as [|l1 ls]; [discriminate|].
    simpl in *. injection Hg as <-. injection Hl as <-.
    destruct Hlab as [Hl1 _].
    unfold result_after in Hl1.
    destruct (g_decisions g0); [congruence|].
    unfold label_of, effective in Hl1.
    apply Z.eqb_neq in H1, H2. now rewrite H1, H2 in Hl1.
  - simpl in *. eapply (IH _ _ Hlab j); eauto.
Qed.

Lemma first_game_simulate fuel player phase g s r s1 :
  (init_locals player ≫= fun _ => simulate fuel player phase g) s = Ret r s1 ->
  simulate fuel player phase g (init_store player s) = Ret r s1.
Proof. intros H. exact H. Qed.

Lemma first_game_can_choose fuel player phase g s r s1 :
  simulate fuel player phase g (init_store player s) = Ret r s1 ->
  can_choose player (init_store player s).
Proof.
  intros H.
  pose proof (wp_of_Ret _ _ _ _ _ _ _
                (wp_simulate (fun _ => O) fuel player phase g _) H)
    as (gl & _ & _ & _ & _ & _ & Hpl & _).
  destruct player as [b|ro]; simpl in *; [exact I|].
  destruct Hpl as (c & c' & [= <-] & Hn & _).
  eexists; split; [reflexivity|].
  unfold live. simpl. left. intros ->. discriminate.
Qed.

(** * The claims *)

(** C1.  A call of [create_dataset] with game count [games >= 1]
    simulates [games - 1] games, one per index of [range(games - 1)] --
    one game fewer than the count it is given -- and the dataset it
    returns has one record per decision point of those games. *)
Theorem create_dataset_simulates_games_minus_one
    (remaining : State -> nat) fuel path player games phase s :
  games_end remaining fuel -> roster_ok player -> winners_ok ->
  1 <= games ->
  exists r s' new,
    create_dataset fuel path player games phase s = Ret r s' /\
    history s' = history s ++ new /\
    map g_index new = range (games - 1) /\
    Z.of_nat (length new) = games - 1 /\
    length r.1 = sum_list (map (fun g => length (g_decisions g)) new).
Proof.
  intros Hend Hro Hwin Hg.
  destruct (create_dataset_returns remaining fuel path player games phase s
              Hend Hro Hwin)
    as (r & s' & new & ls & Heq & -> & _ & _ & Hh & Hi & _).
  eexists _, s', new. split_and!; eauto.
  - rewrite <- (length_map g_index), Hi, length_range. lia.
  - simpl. apply length_vectors.
Qed.

(** C2.  With a roster, every game takes exactly one entry of the
    roster, round-robin and wrapping, whatever the games are like: game
    [i] is played by entry [i mod length roster].  A call with a game
    count of 7 plays [range(7 - 1)], six games, so the roster [A, B, C]
    is assigned in the order A, B, C, A, B, C; no seventh game is
    played. *)
Theorem roster_is_cycled_over_games_minus_one
    (remaining : State -> nat) fuel path games phase s :
  games_end remaining fuel -> winners_ok ->
  (forall roster,
     roster <> [] ->
     exists r s' new,
       create_dataset fuel path (Roster roster) games phase s = Ret r s' /\
       history s' = history s ++ new /\
       length new = Z.to_nat (games - 1) /\
       forall i g,
         new !! i = Some g ->
         roster !! (i mod length roster)%nat = Some (g_player g)) /\
  (forall A B C,
     exists r s' new,
       create_dataset fuel path (Roster [A; B; C]) 7 phase s = Ret r s' /\
       history s' = history s ++ new /\
       map g_player new = [A; B; C; A; B; C]).
Proof.
  intros Hend Hwin. split.
  - intros roster Hne.
    destruct (create_dataset_returns remaining fuel path (Roster roster)
                games phase s Hend Hne Hwin)
      as (r & s' & new & ls & Heq & _ & _ & _ & Hh & Hi & _ & Hpl & _).
    exists r, s', new. split_and!; auto.
    + now rewrite <- (length_map g_index), Hi, length_range.
    + intros i g Hg. simpl in Hpl.
      rewrite <- (take_make_lookup roster (length new) i Hne).
      * rewrite <- Hpl, list_lookup_fmap, Hg. reflexivity.
      * eapply lookup_lt_Some; eauto.
  - intros A B C.
    assert (Hne : [A; B; C] <> []) by discriminate.
    destruct (create_dataset_returns remaining fuel path (Roster [A; B; C])
                7 phase s Hend Hne Hwin)
      as (r & s' & new & ls & Heq & _ & _ & _ & Hh & Hi & _ & Hpl & _).
    exists r, s', new. split_and!; auto.
    simpl in Hpl. rewrite Hpl.
    replace (length new) with 6%nat; [reflexivity|].
    now rewrite <- (length_map g_index), Hi, length_range.
Qed.

(** C3.  When every finished game names player 1 or player 2 as its
    winner, the dataset that [create_dataset] returns has as many labels
    as feature vectors; so has the store after any number of turns of
    the loop over the games, and after any number of turns of the
    labelling loop of any game; and a turn of the labelling loop appends
    exactly one feature vector and exactly one label. *)
Theorem features_and_labels_stay_paired
    (remaining : State -> nat) fuel path player games phase s :
  games_end remaining fuel -> roster_ok player -> winners_ok ->
  (exists d t s',
     create_dataset fuel path player games phase s = Ret (d, t) s' /\
     length d = length t) /\
  (forall k,
     exists s_k,
       (init_locals player ≫= fun _ =>
          for_each (game_body fuel player phase) (take k (range (games - 1))))
         s = Ret tt s_k /\
       length (data s_k) = length (target s_k)) /\
  (forall k g j,
     range (games - 1) !! k = Some g ->
     exists s_kj,
       (init_locals player ≫= fun _ =>
        for_each (game_body fuel player phase) (take k (range (games - 1)))
        ≫= fun _ =>
        simulate fuel player phase g ≫= fun r =>
        for_each (label_record r.1) (take j r.2))
         s = Ret tt s_kj /\
       length (data s_kj) = length (target s_kj)) /\
  (forall w v s0,
     w = 1 \/ w = 2 ->
     exists s1 l,
       label_record w v s0 = Ret tt s1 /\
       data s1 = data s0 ++ [v] /\
       target s1 = target s0 ++ [l]).
Proof.
  intros Hend Hro Hwin. split_and!.
  - destruct (create_dataset_returns remaining fuel path player games phase s
                Hend Hro Hwin)
      as (r & s' & new & ls & Heq & -> & _ & _ & _ & _ & _ & _ & Hlab & _).
    eexists _, _, s'. split; [exact Heq|].
    symmetry. eapply length_blocks; eauto.
  - intros k.
    pose proof (wp_prefix remaining fuel player phase
                  (take k (range (games - 1))) s) as H.
    unfold wp in H.
    destruct ((init_locals player ≫= _) s) as [[] s_k| |]; [|tauto|tauto].
    destruct H as (_ & new & ls & _ & Hd & Ht & Hlab).
    exists s_k. split; [reflexivity|].
    rewrite Hd, Ht. symmetry. eapply length_blocks; eauto.
  - intros k g j Hk.
    cut (wp (init_locals player ≫= fun _ =>
             for_each (game_body fuel player phase)
                      (take k (range (games - 1)))
             ≫= fun _ =>
             simulate fuel player phase g ≫= fun r =>
             for_each (label_record r.1) (take j r.2)) s
            (fun _ s' => length (data s') = length (target s'))
            (fun _ _ => False) False).
    { intros H. apply wp_returns in H as ([] & s_kj & Heq & Hp). eauto. }
    apply wp_bind. unfold init_locals.
    do 3 apply wp_bind, wp_modify. apply wp_modify.
    apply wp_bind.
    eapply wp_mono; [apply (wp_games remaining) | | | tauto]; cycle 1.
    { intros e s' Hn. apply Hn. split; [|now left].
      destruct player as [b|ro]; simpl in *; [exact I|].
      eexists; split; [reflexivity|]. unfold live. simpl. now left. }
    intros [] s_k (Hch & new & ls & _ & _ & _ & _ & Hd & Ht & Hlab & _).
    simpl in Hd, Ht, Hlab.
    assert (Hpar : length (data s_k) = length (target s_k)).
    { rewrite Hd, Ht. symmetry. eapply length_blocks; eauto. }
    apply wp_bind.
    eapply wp_mono; [apply (wp_simulate remaining) | | | tauto]; cycle 1.
    { intros e s' Hn. apply Hn, Hch.
      destruct player as [b|ro]; simpl in *; [exact I|].
      eexists; split; [reflexivity|]. unfold live. simpl. now left. }
    intros [wn vs] s1
      (gl & [= -> ->] & _ & _ & _ & (Hfin & Hw & _) & _ & Hd1 & Ht1 & Hr1 & _).
    unfold wp. simpl. rewrite label_loop_eq.
    destruct (take j (game_vectors gl)) as [|v vs] eqn:Htake.
    + congruence.
    + assert (exists l, effective (g_winner gl) (result s1) = Some l)
        as [l ->].
      { unfold effective. rewrite Hw.
        destruct (Hwin _ Hfin) as [-> | ->]; simpl; eauto. }
      unfold labelled_store, set_target, set_result, set_data. simpl.
      rewrite !length_app, Hd1, Ht1. simpl. rewrite length_replicate. lia.
  - intros w v s0 Hw. rewrite label_record_eq.
    assert (exists l, effective w (result s0) = Some l) as [l ->].
    { unfold effective. destruct Hw as [-> | ->]; simpl; eauto. }
    exists (labelled_store s0 [v] l), l. auto.
Qed.

(** C4.  When every finished game names player 1 or player 2 as its
    winner, [create_dataset] returns a dataset made of one block of
    records per game, in the order of the games; the block of a game
    won by player 1 is labelled "won" throughout, the block of a game
    won by player 2 is labelled "lost" throughout, and every label of
    the dataset is "won" or "lost". *)
Theorem labels_follow_the_winner
    (remaining : State -> nat) fuel path player games phase s :
  games_end remaining fuel -> roster_ok player -> winners_ok ->
  exists r s' new ls,
    create_dataset fuel path player games phase s = Ret r s' /\
    history s' = history s ++ new /\
    r.1 = concat (map game_vectors new) /\
    r.2 = blocks new ls /\
    Forall2 (fun g l => g_winner g = (winner (g_final g)).1 /\
                        (g_winner g = 1 -> l = "won") /\
                        (g_winner g = 2 -> l = "lost")) new ls /\
    Forall (fun l => l = "won" \/ l = "lost") r.2.
Proof.
  intros Hend Hro Hwin.
  destruct (create_dataset_returns remaining fuel path player games phase s
              Hend Hro Hwin)
    as (r & s' & new & ls & Heq & -> & _ & _ & Hh & _ & Hok & _ & Hlab & _).
  eexists _, s', new, ls. split_and!; eauto; simpl.
  - now apply (labelled_winner_rule None).
  - now apply (blocks_won_lost None).
Qed.

(** C5.  Whenever [create_dataset] returns a dataset, the dataset is
    the concatenation, in the order of the games, of one block per
    game; the block of a game with [k] decision points holds its [k]
    feature vectors and [k] copies of one label.  (And it does return
    one when the games end and every winner is player 1 or player 2.) *)
Theorem game_records_form_uniform_blocks fuel path player games phase s :
  (forall remaining : State -> nat,
     games_end remaining fuel -> roster_ok player -> winners_ok ->
     exists r s', create_dataset fuel path player games phase s = Ret r s') /\
  (forall r s',
     create_dataset fuel path player games phase s = Ret r s' ->
     exists new ls,
       history s' = history s ++ new /\
       length ls = length new /\
       Forall (fun g => length (game_vectors g) = length (g_decisions g)) new /\
       r.1 = concat (map game_vectors new) /\
       r.2 = concat (zip_with
                       (fun g l => replicate (length (g_decisions g)) l)
                       new ls)).
Proof.
  split.
  - intros remaining Hend Hro Hwin.
    destruct (create_dataset_returns remaining fuel path player games phase s
                Hend Hro Hwin) as (r & s' & _ & _ & Heq & _).
    eauto.
  - intros r s' Heq.
    destruct (create_dataset_Ret _ _ _ _ _ _ _ _ Heq)
      as (new & ls & -> & _ & _ & Hh & _ & _ & _ & Hlab & _).
    exists new, ls. simpl. split_and!; auto.
    + eapply labelled_length; eauto.
    + apply Forall_forall. intros g _. unfold game_vectors.
      apply length_map.
Qed.

(** C9.  At every decision point of every game of a run that returns a
    dataset, the state is not finished; if its phase is 1, the clone
    signed by the player to move is the argument of both [features] and
    [get_move]; otherwise the state itself is the argument of both.  The
    feature vectors of the dataset are the values of [features] at these
    arguments. *)
Theorem phase_one_states_are_obscured fuel path player games phase s :
  (forall remaining : State -> nat,
     games_end remaining fuel -> roster_ok player -> winners_ok ->
     exists r s', create_dataset fuel path player games phase s = Ret r s') /\
  (forall r s',
     create_dataset fuel path player games phase s = Ret r s' ->
     exists new,
       history s' = history s ++ new /\
       r.1 = concat (map (fun g =>
                            map (fun d => features (d_features_arg d))
                                (g_decisions g)) new) /\
       Forall (fun g =>
                 Forall (fun d => finished (d_state d) = false /\ view_rule d)
                        (g_decisions g)) new).
Proof.
  split.
  - intros remaining Hend Hro Hwin.
    destruct (create_dataset_returns remaining fuel path player games phase s
                Hend Hro Hwin) as (r & s' & _ & _ & Heq & _).
    eauto.
  - intros r s' Heq.
    destruct (create_dataset_Ret _ _ _ _ _ _ _ _ Heq)
      as (new & ls & -> & _ & _ & Hh & _ & Hok & _).
    exists new. simpl. split_and!; auto.
    eapply Forall_impl; [exact Hok|].
    intros g (_ & _ & Hds). eapply Forall_impl; [exact Hds|].
    intros d Hd. split; [apply Hd|]. eapply decision_ok_view_rule; eauto.
Qed.

(** C6.  The dataset is generated if and only if the overwrite flag is
    set or no file exists at the dataset path: in that case the script
    calls [create_dataset] on the dataset path, and the simulation runs;
    with the flag cleared and a file at the dataset path nothing is
    simulated and the store, the dataset file included, is left as it
    was. *)
Theorem generation_runs_iff_overwrite_or_no_file fuel opts s :
  (simulated s (generation fuel opts s) <->
   overwrite opts = true \/ isfile (fs s) (dset_path opts) = false) /\
  (overwrite opts = true \/ isfile (fs s) (dset_path opts) = false ->
   generation fuel opts s =
   (create_dataset fuel (dset_path opts)
                   (Roster [rand_Bot; rdeep_Bot; bully_Bot]) 10000 1
    ≫= fun _ => ret tt) s) /\
  (overwrite opts = false -> isfile (fs s) (dset_path opts) = true ->
   generation fuel opts s = Ret tt s).
Proof.
  assert (Hrun : overwrite opts = true \/
                 isfile (fs s) (dset_path opts) = false ->
                 generation fuel opts s =
                 (create_dataset fuel (dset_path opts)
                    (Roster [rand_Bot; rdeep_Bot; bully_Bot]) 10000 1
                  ≫= fun _ => ret tt) s).
  { intros Hc. unfold generation.
    unfold mbind at 1, M_bind at 1, bind at 1, gets. simpl.
    destruct Hc as [-> | ->]; [reflexivity|].
    now rewrite orb_true_r. }
  assert (Hskip : overwrite opts = false ->
                  isfile (fs s) (dset_path opts) = true ->
                  generation fuel opts s = Ret tt s).
  { intros Ho Hf. unfold generation.
    unfold mbind, M_bind, bind, gets. simpl. now rewrite Ho, Hf. }
  split_and!; auto.
  split.
  - intros Hsim.
    destruct (overwrite opts) eqn:Ho; [now left|].
    destruct (isfile (fs s) (dset_path opts)) eqn:Hf; [|now right].
    rewrite (Hskip eq_refl eq_refl) in Hsim. simpl in Hsim. lia.
  - intros Hc. rewrite (Hrun Hc).
    pose proof (create_dataset_simulated fuel (dset_path opts)
                  (Roster [rand_Bot; rdeep_Bot; bully_Bot]) 10000 1 s) as H.
    unfold mbind, M_bind, bind.
    destruct (create_dataset fuel (dset_path opts) _ 10000 1 s);
      simpl in *; auto; apply H; (discriminate || lia).
Qed.

(** C7.  A sweep over the layer counts [1, 2] and the widths [16, 32]
    dumps exactly four models, in the order (1,16), (1,32), (2,16),
    (2,32) of the two nested loops, each at the path "./bots/ml/" +
    "model" + n + "x" + w + ".pkl"; each file holds the model fitted
    with its configuration on the dataset, and no other path of the
    file system changes.  (The dataset file is a pickled dataset and
    lies at none of the four paths.) *)
Theorem sweep_two_by_two_dumps_four_models dset d s :
  fs s !! dset = Some (PickleFile d) ->
  dset ∉ ["./bots/ml/model1x16.pkl"; "./bots/ml/model1x32.pkl";
          "./bots/ml/model2x16.pkl"; "./bots/ml/model2x32.pkl"] ->
  exists s' new,
    sweep dset [1; 2] [16; 32] s = Ret tt s' /\
    fits s' = fits s ++ new /\
    map (fun f => (f_n_layers f, f_size f, f_path f)) new =
      [(1, 16, "./bots/ml/model1x16.pkl"); (1, 32, "./bots/ml/model1x32.pkl");
       (2, 16, "./bots/ml/model2x16.pkl"); (2, 32, "./bots/ml/model2x32.pkl")] /\
    Forall (fun f =>
              f_path f =
                "./bots/ml/" +:+
                ("model" +:+ str (f_n_layers f) +:+ "x" +:+ str (f_size f))
                +:+ ".pkl" /\
              exists w0,
                fs s' !! f_path f =
                Some (JoblibFile (fit (f_learner f) d.1 d.2 w0).1)) new /\
    (forall p,
       p ∉ ["./bots/ml/model1x16.pkl"; "./bots/ml/model1x32.pkl";
            "./bots/ml/model2x16.pkl"; "./bots/ml/model2x32.pkl"] ->
       fs s' !! p = fs s !! p).
Proof.
  intros Hd Hne.
  assert (Hgrid : Forall (fun c => artifact_path c.1 c.2 <> dset)
                         (grid [1; 2] [16; 32])).
  { apply Forall_forall. intros c Hc Heq. apply Hne. subst dset.
    unfold grid in Hc. simpl in Hc.
    repeat (apply elem_of_cons in Hc as [-> | Hc];
            [vm_compute; set_solver|]).
    now apply elem_of_nil in Hc. }
  destruct (wp_returns _ _ _ (wp_sweep dset d [1; 2] [16; 32] s Hd Hgrid))
    as ([] & s' & Heq & Hf & Ha & Ho & _).
  exists s', (map fit_log_of (grid [1; 2] [16; 32])).
  split_and!; auto.
  - repeat constructor; simpl.
    all: match goal with
         | |- exists w0, fs _ !! ?p = _ =>
             let c := fresh "c" in
             let w0 := fresh "w0" in
             let Hc := fresh "Hc" in
             let Hp := fresh "Hp" in
             let Hfs := fresh "Hfs" in
             destruct (Ha p) as (c & w0 & Hc & Hp & Hfs);
             [vm_compute; set_solver|];
             exists w0; rewrite Hfs;
             unfold grid in Hc; simpl in Hc;
             repeat (apply elem_of_cons in Hc as [-> | Hc];
                     [first [reflexivity | vm_compute in Hp; discriminate]|]);
             now apply elem_of_nil in Hc
         end.
Qed.

(** C8.  At every turn of the sweep, for the layer count [n] and the
    width [w] of the turn, the hidden layer sizes of the classifier that
    is fitted have [n] entries, each equal to [w].  (The dataset file is
    a pickled dataset that no turn overwrites, and no layer count is
    negative.) *)
Theorem hidden_layers_have_n_entries_of_width_w dset d layers sizes s :
  fs s !! dset = Some (PickleFile d) ->
  Forall (fun c => artifact_path c.1 c.2 <> dset) (grid layers sizes) ->
  Forall (fun n => 0 <= n) layers ->
  exists s' new,
    sweep dset layers sizes s = Ret tt s' /\
    fits s' = fits s ++ new /\
    map (fun f => (f_n_layers f, f_size f)) new = grid layers sizes /\
    Forall (fun f =>
              Z.of_nat (length (hidden_layer_sizes (f_learner f))) =
                f_n_layers f /\
              Forall (fun x => x = f_size f)
                     (hidden_layer_sizes (f_learner f))) new.
Proof.
  intros Hd Hgrid Hpos.
  destruct (wp_returns _ _ _ (wp_sweep dset d layers sizes s Hd Hgrid))
    as ([] & s' & Heq & Hf & _).
  exists s', (map fit_log_of (grid layers sizes)).
  split_and!; auto.
  - rewrite map_map. simpl. rewrite <- (map_id (grid layers sizes)) at 2.
    apply map_ext. now intros [n w].
  - apply Forall_map, Forall_forall. intros [n w] Hc. simpl.
    rewrite layer_sizes_replicate, length_replicate.
    split; [|now apply Forall_replicate].
    assert (0 <= n); [|lia].
    unfold grid in Hc. apply list_elem_of_In, in_flat_map in Hc.
    destruct Hc as (n' & Hn' & Hc). apply in_map_iff in Hc.
    destruct Hc as (w' & [= <- <-] & _).
    rewrite Forall_forall in Hpos. apply Hpos. now apply list_elem_of_In.
Qed.

(** C10.  Let the first simulated game have at least one decision
    point.  If its winner is neither 1 nor 2, [create_dataset] fails
    with UnboundLocalError right after the first feature vector of that
    game was appended and before any label was: [data] holds one vector
    and [target] none.  If its winner is 1 or 2, no later game raises
    an error, whatever winner it reports: the run returns a dataset, in
    which the records of a game whose winner is neither 1 nor 2 carry
    the label of the records of the game before it. *)
Theorem out_of_range_winner_fails_or_inherits_label
    (remaining : State -> nat) fuel path player games phase s :
  2 <= games ->
  (forall wn v vs s1,
     (init_locals player ≫= fun _ => simulate fuel player phase 0) s
       = Ret (wn, v :: vs) s1 ->
     wn <> 1 -> wn <> 2 ->
     exists s',
       create_dataset fuel path player games phase s
         = Raise UnboundLocalError s' /\
       data s' = [v] /\ target s' = [] /\
       length (data s') = S (length (target s'))) /\
  (games_end remaining fuel ->
   forall wn v vs s1,
     (init_locals player ≫= fun _ => simulate fuel player phase 0) s
       = Ret (wn, v :: vs) s1 ->
     wn = 1 \/ wn = 2 ->
     exists r s' new ls,
       create_dataset fuel path player games phase s = Ret r s' /\
       history s' = history s ++ new /\
       r.1 = concat (map game_vectors new) /\
       r.2 = blocks new ls /\
       length ls = length new /\
       forall j gp g lp l,
         new !! j = Some gp -> new !! S j = Some g ->
         ls !! j = Some lp -> ls !! S j = Some l ->
         g_decisions gp <> [] -> g_winner g <> 1 -> g_winner g <> 2 ->
         l = lp).
Proof.
  intros Hg.
  destruct (range_first (games - 1)) as (rest & Hrange); [lia|].
  split.
  - intros wn v vs s1 Hsim H1 H2.
    rewrite create_dataset_eq, Hrange, (first_game_eq _ _ _ _ _ _ _ _ Hsim).
    apply first_game_simulate in Hsim.
    pose proof (wp_of_Ret _ _ _ _ _ _ _
                  (wp_simulate (fun _ => O) fuel player phase 0 _) Hsim)
      as (gl & _ & _ & _ & _ & _ & _ & Hd & Ht & Hr & _).
    simpl in Hd, Ht, Hr.
    rewrite label_loop_eq, Hr. unfold effective.
    apply Z.eqb_neq in H1, H2. rewrite H1, H2.
    eexists. split; [reflexivity|]. simpl. rewrite Hd, Ht. auto.
  - intros Hend wn v vs s1 Hsim Hw.
    pose proof (first_game_eq fuel player phase rest _ _ _ _ Hsim) as Hfirst.
    apply first_game_simulate in Hsim.
    pose proof (first_game_can_choose _ _ _ _ _ _ _ Hsim) as Hch.
    pose proof (wp_of_Ret _ _ _ _ _ _ _
                  (wp_simulate (fun _ => O) fuel player phase 0 _) Hsim)
      as (gl & Hr0 & _ & _ & _ & _ & _ & _ & _ & Hr & _).
    simpl in Hr.
    assert (exists l, effective wn None = Some l) as [l Heff].
    { unfold effective. destruct Hw as [-> | ->]; simpl; eauto. }
    rewrite label_loop_eq, Hr, Heff in Hfirst.
    assert (Hbody : game_body fuel player phase 0 (init_store player s)
                    = Ret tt (labelled_store s1 (v :: vs) l)).
    { unfold game_body, mbind, M_bind, bind. rewrite Hsim.
      now rewrite label_loop_eq, Hr, Heff. }
    pose proof (wp_of_Ret _ _ _ _ _ _ _
                  (wp_game_body (fun _ => O) fuel player phase 0 _) Hbody)
      as Hpost.
    pose proof (wp_games remaining fuel player phase rest
                  (labelled_store s1 (v :: vs) l)) as Hrest.
    unfold wp in Hrest.
    destruct (for_each (game_body fuel player phase) rest
                (labelled_store s1 (v :: vs) l)) as [[] s'| |] eqn:Hloop.
    + destruct Hrest as (_ & new & ls & Hrun).
      destruct (run_post_cons _ _ _ _ _ _ _ _ _ Hpost Hrun)
        as (gl0 & l0 & Hh & _ & _ & _ & Hd & Ht & Hlab & _).
      simpl in Hh, Hd, Ht, Hlab.
      rewrite create_dataset_eq, Hrange, Hfirst.
      eexists _, _, (gl0 :: new), (l0 :: ls).
      split; [reflexivity|]. simpl.
      split_and!; auto.
      * eapply (labelled_length None (gl0 :: new) (l0 :: ls)); eauto.
      * eapply (labelled_stale None (gl0 :: new) (l0 :: ls)); eauto.
    + exfalso. apply Hrest. split.
      * exact (game_post_can_choose _ _ _ _ _ Hpost Hch).
      * right. simpl. discriminate.
    + exfalso. apply Hrest. exact Hend.
Qed.

End Proofs.

(** * The claims on the small engine *)

Lemma toy_games_end draws : games_end (E := Toy.engine draws) Toy.left 4.
Proof.
  split.
  - intros [l w p sg] mv wd Hf. simpl in *.
    destruct l; [discriminate | lia].
  - intros ph [|[k wn] w]; simpl; lia.
Qed.

Lemma toy_winners_ok : winners_ok (E := Toy.engine false).
Proof.
  intros st _. simpl. destruct (Toy.win st =? 1); auto.
Qed.

Lemma create_dataset_simulates_games_minus_one_witness :
  games_end (E := ToyRun.E0) Toy.left 4 /\
  roster_ok ToyRun.rand /\
  winners_ok (E := ToyRun.E0) /\
  1 <= 3 /\
  exists r s' new,
    create_dataset 4 "dataset.pkl" ToyRun.rand 3 1 ToyRun.s0 = Ret r s' /\
    history s' = history ToyRun.s0 ++ new /\
    map g_index new = range (3 - 1) /\
    Z.of_nat (length new) = 3 - 1 /\
    length r.1 = sum_list (map (fun g => length (g_decisions g)) new).
Proof.
  assert (H1 : games_end (E := ToyRun.E0) Toy.left 4) by apply toy_games_end.
  assert (H2 : roster_ok ToyRun.rand) by exact I.
  assert (H3 : winners_ok (E := ToyRun.E0)) by apply toy_winners_ok.
  assert (H4 : 1 <= 3) by lia.
  split_and!; auto.
  exact (create_dataset_simulates_games_minus_one (E := ToyRun.E0)
           Toy.left 4 "dataset.pkl" ToyRun.rand 3 1 ToyRun.s0 H1 H2 H3 H4).
Defined.

Lemma roster_is_cycled_over_games_minus_one_witness :
  games_end (E := ToyRun.E0) Toy.left 4 /\
  winners_ok (E := ToyRun.E0) /\
  (forall roster,
     roster <> [] ->
     exists r s' new,
       create_dataset (E := ToyRun.E0) 4 "dataset.pkl" (Roster roster) 7 1
                      ToyRun.s0 = Ret r s' /\
       history s' = history ToyRun.s0 ++ new /\
       length new = Z.to_nat (7 - 1) /\
       forall i g,
         new !! i = Some g ->
         roster !! (i mod length roster)%nat = Some (g_player g)) /\
  (forall A B C,
     exists r s' new,
       create_dataset (E := ToyRun.E0) 4 "dataset.pkl" (Roster [A; B; C]) 7 1
                      ToyRun.s0 = Ret r s' /\
       history s' = history ToyRun.s0 ++ new /\
       map g_player new = [A; B; C; A; B; C]).
Proof.
  assert (H1 : games_end (E := ToyRun.E0) Toy.left 4) by apply toy_games_end.
  assert (H2 : winners_ok (E := ToyRun.E0)) by apply toy_winners_ok.
  split; [exact H1|]. split; [exact H2|].
  exact (roster_is_cycled_over_games_minus_one (E := ToyRun.E0)
           Toy.left 4 "dataset.pkl" 7 1 ToyRun.s0 H1 H2).
Defined.

Lemma features_and_labels_stay_paired_witness :
  games_end (E := ToyRun.E0) Toy.left 4 /\
  roster_ok ToyRun.rand /\
  winners_ok (E := ToyRun.E0) /\
  (exists d t s',
     create_dataset 4 "dataset.pkl" ToyRun.rand 3 1 ToyRun.s0
       = Ret (d, t) s' /\
     length d = length t) /\
  (forall k,
     exists s_k,
       (init_locals ToyRun.rand ≫= fun _ =>
          for_each (game_body 4 ToyRun.rand 1) (take k (range (3 - 1))))
         ToyRun.s0 = Ret tt s_k /\
       length (data s_k) = length (target s_k)) /\
  (forall k g j,
     range (3 - 1) !! k = Some g ->
     exists s_kj,
       (init_locals ToyRun.rand ≫= fun _ =>
        for_each (game_body 4 ToyRun.rand 1) (take k (range (3 - 1)))
        ≫= fun _ =>
        simulate 4 ToyRun.rand 1 g ≫= fun r =>
        for_each (label_record r.1) (take j r.2))
         ToyRun.s0 = Ret tt s_kj /\
       length (data s_kj) = length (target s_kj)) /\
  (forall w v (s0 : store (E := ToyRun.E0)),
     w = 1 \/ w = 2 ->
     exists s1 l,
       label_record w v s0 = Ret tt s1 /\
       data s1 = data s0 ++ [v] /\
       target s1 = target s0 ++ [l]).
Proof.
  assert (H1 : games_end (E := ToyRun.E0) Toy.left 4) by apply toy_games_end.
  assert (H2 : roster_ok ToyRun.rand) by exact I.
  assert (H3 : winners_ok (E := ToyRun.E0)) by apply toy_winners_ok.
  split; [exact H1|]. split; [exact H2|]. split; [exact H3|].
  exact (features_and_labels_stay_paired (E := ToyRun.E0)
           Toy.left 4 "dataset.pkl" ToyRun.rand 3 1 ToyRun.s0 H1 H2 H3).
Defined.

Lemma labels_follow_the_winner_witness :
  games_end (E := ToyRun.E0) Toy.left 4 /\
  roster_ok ToyRun.rand /\
  winners_ok (E := ToyRun.E0) /\
  exists r s' new ls,
    create_dataset 4 "dataset.pkl" ToyRun.rand 3 1 ToyRun.s0 = Ret r s' /\
    history s' = history ToyRun.s0 ++ new /\
    r.1 = concat (map game_vectors new) /\
    r.2 = blocks new ls /\
    Forall2 (fun g l => g_winner g = (winner (g_final g)).1 /\
                        (g_winner g = 1 -> l = "won") /\
                        (g_winner g = 2 -> l = "lost")) new ls /\
    Forall (fun l => l = "won" \/ l = "lost") r.2.
Proof.
  assert (H1 : games_end (E := ToyRun.E0) Toy.left 4) by apply toy_games_end.
  assert (H2 : roster_ok ToyRun.rand) by exact I.
  assert (H3 : winners_ok (E := ToyRun.E0)) by apply toy_winners_ok.
  split; [exact H1|]. split; [exact H2|]. split; [exact H3|].
  exact (labels_follow_the_winner (E := ToyRun.E0)
           Toy.left 4 "dataset.pkl" ToyRun.rand 3 1 ToyRun.s0 H1 H2 H3).
Defined.

Lemma game_records_form_uniform_blocks_witness :
  games_end (E := ToyRun.E0) Toy.left 4 /\
  roster_ok ToyRun.rand /\
  winners_ok (E := ToyRun.E0) /\
  exists r s',
    create_dataset 4 "dataset.pkl" ToyRun.rand 3 1 ToyRun.s0 = Ret r s' /\
    exists new ls,
      history s' = history ToyRun.s0 ++ new /\
      length ls = length new /\
      Forall (fun g => length (game_vectors g) = length (g_decisions g)) new /\
      r.1 = concat (map game_vectors new) /\
      r.2 = concat (zip_with
                      (fun g l => replicate (length (g_decisions g)) l)
                      new ls).
Proof.
  assert (H1 : games_end (E := ToyRun.E0) Toy.left 4) by apply toy_games_end.
  assert (H2 : roster_ok ToyRun.rand) by exact I.
  assert (H3 : winners_ok (E := ToyRun.E0)) by apply toy_winners_ok.
  split; [exact H1|]. split; [exact H2|]. split; [exact H3|].
  destruct (game_records_form_uniform_blocks (E := ToyRun.E0)
              4 "dataset.pkl" ToyRun.rand 3 1 ToyRun.s0) as [Hret Hblocks].
  destruct (Hret Toy.left H1 H2 H3) as (r & s' & Heq).
  exists r, s'. split; [exact Heq|]. exact (Hblocks r s' Heq).
Defined.

Lemma phase_one_states_are_obscured_witness :
  games_end (E := ToyRun.E0) Toy.left 4 /\
  roster_ok ToyRun.rand /\
  winners_ok (E := ToyRun.E0) /\
  exists r s',
    create_dataset 4 "dataset.pkl" ToyRun.rand 3 1 ToyRun.s0 = Ret r s' /\
    exists new,
      history s' = history ToyRun.s0 ++ new /\
      r.1 = concat (map (fun g =>
                           map (fun d => features (d_features_arg d))
                               (g_decisions g)) new) /\
      Forall (fun g =>
                Forall (fun d => finished (d_state d) = false /\ view_rule d)
                       (g_decisions g)) new.
Proof.
  assert (H1 : games_end (E := ToyRun.E0) Toy.left 4) by apply toy_games_end.
  assert (H2 : roster_ok ToyRun.rand) by exact I.
  assert (H3 : winners_ok (E := ToyRun.E0)) by apply toy_winners_ok.
  split; [exact H1|]. split; [exact H2|]. split; [exact H3|].
  destruct (phase_one_states_are_obscured (E := ToyRun.E0)
              4 "dataset.pkl" ToyRun.rand 3 1 ToyRun.s0) as [Hret Hview].
  destruct (Hret Toy.left H1 H2 H3) as (r & s' & Heq).
  exists r, s'. split; [exact Heq|]. exact (Hview r s' Heq).
Defined.

Lemma generation_runs_iff_overwrite_or_no_file_witness :
  (overwrite ToySweep.keep = false /\
   isfile (fs ToySweep.with_file) (dset_path ToySweep.keep) = true /\
   generation 4 ToySweep.keep ToySweep.with_file = Ret tt ToySweep.with_file /\
   ~ simulated ToySweep.with_file
       (generation 4 ToySweep.keep ToySweep.with_file)) /\
  (overwrite ToySweep.renew = true /\
   simulated ToySweep.with_file
     (generation 4 ToySweep.renew ToySweep.with_file)).
Proof.
  assert (Ho : overwrite ToySweep.keep = false) by reflexivity.
  assert (Hf : isfile (fs ToySweep.with_file) (dset_path ToySweep.keep) = true)
    by reflexivity.
  assert (Hr : overwrite ToySweep.renew = true) by reflexivity.
  destruct (generation_runs_iff_overwrite_or_no_file (E := ToyRun.E0)
              4 ToySweep.keep ToySweep.with_file) as (Hiff & _ & Hskip).
  destruct (generation_runs_iff_overwrite_or_no_file (E := ToyRun.E0)
              4 ToySweep.renew ToySweep.with_file) as (Hiff' & _ & _).
  split.
  - split; [exact Ho|]. split; [exact Hf|]. split; [exact (Hskip Ho Hf)|].
    intros Hsim. apply Hiff in Hsim as [Hsim | Hsim].
    + rewrite Ho in Hsim. discriminate.
    + rewrite Hf in Hsim. discriminate.
  - split; [exact Hr|]. apply Hiff'. left. exact Hr.
Defined.

Lemma sweep_two_by_two_dumps_four_models_witness :
  fs ToySweep.with_file !! "dataset.pkl" = Some (PickleFile ToySweep.d0) /\
  ("dataset.pkl" ∉ ["./bots/ml/model1x16.pkl"; "./bots/ml/model1x32.pkl";
                    "./bots/ml/model2x16.pkl"; "./bots/ml/model2x32.pkl"]) /\
  exists s' new,
    sweep "dataset.pkl" [1; 2] [16; 32] ToySweep.with_file = Ret tt s' /\
    fits s' = fits ToySweep.with_file ++ new /\
    map (fun f => (f_n_layers f, f_size f, f_path f)) new =
      [(1, 16, "./bots/ml/model1x16.pkl"); (1, 32, "./bots/ml/model1x32.pkl");
       (2, 16, "./bots/ml/model2x16.pkl"); (2, 32, "./bots/ml/model2x32.pkl")] /\
    Forall (fun f =>
              f_path f =
                "./bots/ml/" +:+
                ("model" +:+ str (f_n_layers f) +:+ "x" +:+ str (f_size f))
                +:+ ".pkl" /\
              exists w0,
                fs s' !! f_path f =
                Some (JoblibFile
                        (fit (f_learner f) ToySweep.d0.1 ToySweep.d0.2 w0).1))
           new /\
    (forall p,
       p ∉ ["./bots/ml/model1x16.pkl"; "./bots/ml/model1x32.pkl";
            "./bots/ml/model2x16.pkl"; "./bots/ml/model2x32.pkl"] ->
       fs s' !! p = fs ToySweep.with_file !! p).
Proof.
  assert (H1 : fs ToySweep.with_file !! "dataset.pkl"
               = Some (PickleFile ToySweep.d0)) by reflexivity.
  assert (H2 : "dataset.pkl" ∉
               ["./bots/ml/model1x16.pkl"; "./bots/ml/model1x32.pkl";
                "./bots/ml/model2x16.pkl"; "./bots/ml/model2x32.pkl"]).
  { intros H.
    repeat (apply elem_of_cons in H as [H | H]; [discriminate|]).
    now apply elem_of_nil in H. }
  split; [exact H1|]. split; [exact H2|].
  exact (sweep_two_by_two_dumps_four_models (E := ToyRun.E0)
           "dataset.pkl" ToySweep.d0 ToySweep.with_file H1 H2).
Defined.

Lemma hidden_layers_have_n_entries_of_width_w_witness :
  fs ToySweep.with_file !! "dataset.pkl" = Some (PickleFile ToySweep.d0) /\
  Forall (fun c => artifact_path c.1 c.2 <> "dataset.pkl")
         (grid number_of_layers_list hidden_layer_sizes_list) /\
  Forall (fun n => 0 <= n) number_of_layers_list /\
  exists s' new,
    sweep "dataset.pkl" number_of_layers_list hidden_layer_sizes_list
          ToySweep.with_file = Ret tt s' /\
    fits s' = fits ToySweep.with_file ++ new /\
    map (fun f => (f_n_layers f, f_size f)) new =
      grid number_of_layers_list hidden_layer_sizes_list /\
    Forall (fun f =>
              Z.of_nat (length (hidden_layer_sizes (f_learner f))) =
                f_n_layers f /\
              Forall (fun x => x = f_size f)
                     (hidden_layer_sizes (f_learner f))) new.
Proof.
  assert (H1 : fs ToySweep.with_file !! "dataset.pkl"
               = Some (PickleFile ToySweep.d0)) by reflexivity.
  assert (H2 : Forall (fun c => artifact_path c.1 c.2 <> "dataset.pkl")
                      (grid number_of_layers_list hidden_layer_sizes_list)).
  { unfold grid, number_of_layers_list, hidden_layer_sizes_list. simpl.
    repeat (apply Forall_cons; split; [vm_compute; discriminate|]).
    apply Forall_nil. exact I. }
  assert (H3 : Forall (fun n => 0 <= n) number_of_layers_list).
  { unfold number_of_layers_list.
    repeat (apply Forall_cons; split; [lia|]). apply Forall_nil. exact I. }
  split; [exact H1|]. split; [exact H2|]. split; [exact H3|].
  exact (hidden_layers_have_n_entries_of_width_w (E := ToyRun.E0)
           "dataset.pkl" ToySweep.d0 number_of_layers_list
           hidden_layer_sizes_list ToySweep.with_file H1 H2 H3).
Defined.

Lemma out_of_range_winner_fails_or_inherits_label_witness :
  2 <= 3 /\
  (exists wn v vs s1,
     (init_locals ToyRun.bully ≫= fun _ => simulate 4 ToyRun.bully 1 0)
       ToyRun.draw_first = Ret (wn, v :: vs) s1 /\
     wn <> 1 /\ wn <> 2 /\
     exists s',
       create_dataset 4 "dataset.pkl" ToyRun.bully 3 1 ToyRun.draw_first
         = Raise UnboundLocalError s' /\
       data s' = [v] /\ target s' = [] /\
       length (data s') = S (length (target s'))) /\
  games_end (E := ToyRun.E1) Toy.left 4 /\
  (exists wn v vs s1,
     (init_locals ToyRun.bully ≫= fun _ => simulate 4 ToyRun.bully 1 0)
       ToyRun.draw_second = Ret (wn, v :: vs) s1 /\
     (wn = 1 \/ wn = 2) /\
     exists r s' new ls,
       create_dataset 4 "dataset.pkl" ToyRun.bully 3 1 ToyRun.draw_second
         = Ret r s' /\
       history s' = history ToyRun.draw_second ++ new /\
       r.1 = concat (map game_vectors new) /\
       r.2 = blocks new ls /\
       length ls = length new /\
       forall j gp g lp l,
         new !! j = Some gp -> new !! S j = Some g ->
         ls !! j = Some lp -> ls !! S j = Some l ->
         g_decisions gp <> [] -> g_winner g <> 1 -> g_winner g <> 2 ->
         l = lp).
Proof.
  assert (H0 : 2 <= 3) by lia.
  assert (H1 : games_end (E := ToyRun.E1) Toy.left 4) by apply toy_games_end.
  destruct (out_of_range_winner_fails_or_inherits_label (E := ToyRun.E1)
              Toy.left 4 "dataset.pkl" ToyRun.bully 3 1 ToyRun.draw_first H0)
    as [Hfail _].
  destruct (out_of_range_winner_fails_or_inherits_label (E := ToyRun.E1)
              Toy.left 4 "dataset.pkl" ToyRun.bully 3 1 ToyRun.draw_second H0)
    as [_ Hkeep].
  split; [exact H0|]. split; [|split; [exact H1|]].
  - eexists _, _, _, _. split; [reflexivity|].
    split; [discriminate|]. split; [discriminate|].
    eapply Hfail; [reflexivity | discriminate | discriminate].
  - eexists _, _, _, _. split; [reflexivity|].
    split; [left; reflexivity|].
    eapply (Hkeep H1); [reflexivity | left; reflexivity].
Defined.

(** * Runs of the script on the small engine *)

(** With a game count of 1 no game is simulated and the dataset is
    empty. *)
Example toy_count_one_simulates_no_game :
  match create_dataset 4 "dataset.pkl" ToyRun.rand 1 1 ToyRun.s0 with
  | Ret r s' => Some (r, map g_index (history s'))
  | _ => None
  end = Some (([], []), []).
Proof. vm_compute. reflexivity. Qed.

(** With a game count of 3 the games 0 and 1 are simulated. *)
Example toy_count_three_simulates_two_games :
  match create_dataset 4 "dataset.pkl" ToyRun.rand 3 1 ToyRun.s0 with
  | Ret r s' => Some (r, map g_index (history s'))
  | _ => None
  end = Some (([(2%nat, true); (1%nat, true); (1%nat, true)],
               ["won"; "won"; "lost"]),
              [0; 1]).
Proof. vm_compute. reflexivity. Qed.

(** With a game count of 7 the roster [A, B, C] plays six games. *)
Example toy_count_seven_assigns_six_players :
  match create_dataset (E := ToyRun.E0) 4 "dataset.pkl"
          (Roster (E := ToyRun.E0) ["A"; "B"; "C"]) 7 1 ToyRun.s0 with
  | Ret r s' => Some (map g_player (history s'))
  | _ => None
  end = Some ["A"; "B"; "C"; "A"; "B"; "C"].
Proof. vm_compute. reflexivity. Qed.

(** A first game without a winner among 1 and 2 stops the run with one
    feature vector and no label. *)
Example toy_draw_in_first_game :
  match create_dataset 4 "dataset.pkl" ToyRun.bully 3 1 ToyRun.draw_first with
  | Raise e s' => Some (e, data s', target s')
  | _ => None
  end = Some (UnboundLocalError, [(2%nat, true)], []).
Proof. vm_compute. reflexivity. Qed.

(** A second game without a winner among 1 and 2 takes the label of the
    first. *)
Example toy_draw_in_second_game :
  match create_dataset 4 "dataset.pkl" ToyRun.bully 3 1 ToyRun.draw_second with
  | Ret r s' => Some (r.2, map g_winner (history s'))
  | _ => None
  end = Some (["won"; "won"; "won"; "won"; "won"], [1; 3]).
Proof. vm_compute. reflexivity. Qed.

(** * More of the script *)

Section ClassCount.

Lemma count_label_lookup count t :
  exists count',
    count_label count t = Some count' /\
    forall u,
      count' !! u =
      if decide (u = t) then Some (default 0 (count !! t) + 1)
      else count !! u.
Proof.
  unfold count_label.
  destruct (count !! t) as [n|] eqn:Ht.
  - rewrite decide_False by discriminate. rewrite Ht.
    eexists. split; [reflexivity|]. intros u.
    destruct (decide (u = t)) as [->|Hne].
    + now rewrite lookup_insert_eq.
    + now rewrite lookup_insert_ne.
  - rewrite decide_True by reflexivity. rewrite lookup_insert_eq.
    eexists. split; [reflexivity|]. intros u.
    destruct (decide (u = t)) as [->|Hne].
    + now rewrite lookup_insert_eq.
    + rewrite !lookup_insert_ne by congruence. reflexivity.
Qed.

Lemma occurrences_cons t u target :
  occurrences t (u :: target) =
  (if decide (u = t) then 1 else 0) + occurrences t target.
Proof.
  unfold occurrences. rewrite filter_cons.
  destruct (decide (u = t)); simpl; lia.
Qed.

Lemma occurrences_pos t target : t ∈ target -> 0 < occurrences t target.
Proof.
  induction target as [|u target IH]; intros Hin.
  - now apply elem_of_nil in Hin.
  - rewrite occurrences_cons. apply elem_of_cons in Hin as [-> | Hin].
    + rewrite decide_True by reflexivity. unfold occurrences. lia.
    + specialize (IH Hin). destruct (decide (u = t)); lia.
Qed.

Lemma occurrences_zero t target : t ∉ target -> occurrences t target = 0.
Proof.
  induction target as [|u target IH]; intros Hin; [reflexivity|].
  rewrite occurrences_cons. rewrite not_elem_of_cons in Hin.
  destruct Hin as [Hne Hin]. rewrite decide_False by congruence.
  now rewrite IH.
Qed.

Lemma class_count_from_lookup target :
  forall count,
    exists count',
      class_count_from count target = Some count' /\
      forall t,
        count' !! t =
        match count !! t with
        | Some n => Some (n + occurrences t target)
        | None =>
            if decide (t ∈ target) then Some (occurrences t target) else None
        end.
Proof.
  induction target as [|u target IH]; intros count.
  - exists count. split; [reflexivity|]. intros t.
    destruct (count !! t) as [n|].
    + unfold occurrences. simpl. f_equal; lia.
    + rewrite decide_False; [reflexivity|]. apply not_elem_of_nil.
  - simpl. destruct (count_label_lookup count u) as (c1 & -> & Hc1).
    destruct (IH c1) as (c2 & -> & Hc2).
    exists c2. split; [reflexivity|]. intros t.
    rewrite Hc2, Hc1, occurrences_cons.
    destruct (decide (t = u)) as [->|Hne].
    + rewrite decide_True by reflexivity.
      destruct (count !! u) as [n|]; simpl.
      * f_equal; lia.
      * rewrite decide_True by (apply elem_of_cons; now left).
        f_equal; lia.
    + rewrite (decide_False (P := u = t)) by congruence.
      destruct (count !! t) as [n|]; [reflexivity|].
      destruct (decide (t ∈ target)) as [Hin|Hnin].
      * rewrite decide_True by (apply elem_of_cons; now right). reflexivity.
      * rewrite decide_False; [reflexivity|].
        rewrite not_elem_of_cons. split; assumption.
Qed.

Lemma total_insert_fresh count t n :
  count !! t = None -> total (<[t := n]> count) = n + total count.
Proof.
  intros Ht. unfold total. rewrite map_fold_insert_L; [reflexivity| |exact Ht].
  intros. lia.
Qed.

Lemma total_insert count t n :
  total (<[t := n]> count) = n + total (delete t count).
Proof.
  rewrite <- insert_delete_eq. apply total_insert_fresh, lookup_delete_eq.
Qed.

Lemma total_delete count t n :
  count !! t = Some n -> total count = n + total (delete t count).
Proof.
  intros Ht. rewrite <- (insert_delete_id count t n Ht) at 1.
  apply total_insert_fresh, lookup_delete_eq.
Qed.

Lemma count_label_total count t count' :
  count_label count t = Some count' -> total count' = total count + 1.
Proof.
  unfold count_label. destruct (count !! t) as [n|] eqn:Ht.
  - rewrite decide_False by discriminate. rewrite Ht. intros [= <-].
    rewrite total_insert, (total_delete count t n Ht). lia.
  - rewrite decide_True by reflexivity. rewrite lookup_insert_eq.
    intros [= <-]. rewrite insert_insert_eq, total_insert_fresh by exact Ht.
    lia.
Qed.

Lemma class_count_from_total target :
  forall count count',
    class_count_from count target = Some count' ->
    total count' = total count + Z.of_nat (length target).
Proof.
  induction target as [|t target IH]; intros count count'; simpl.
  - intros [= <-]. lia.
  - destruct (count_label count t) as [c1|] eqn:Hc1; [|discriminate].
    intros H. rewrite (IH _ _ H), (count_label_total _ _ _ Hc1). lia.
Qed.

(** X1.  The class count never fails with a KeyError; the dictionary it
    builds has exactly the labels that occur in [target] as its keys,
    and maps each of them to the number of records that carry it. *)
Theorem class_count_counts_occurrences target :
  exists count,
    class_count target = Some count /\
    forall t,
      count !! t =
      if decide (t ∈ target) then Some (occurrences t target) else None.
Proof.
  destruct (class_count_from_lookup target ∅) as (count & Heq & Hl).
  exists count. split; [exact Heq|]. intros t.
  now rewrite Hl, lookup_empty.
Qed.

(** X2.  The counts of the class count add up to the number of
    records. *)
Theorem class_count_adds_up target count :
  class_count target = Some count ->
  total count = Z.of_nat (length target).
Proof.
  intros H. apply class_count_from_total in H. rewrite H.
  unfold total. now rewrite map_fold_empty.
Qed.

(** X3.  The class count does not depend on the order of the records:
    a permutation of [target] gives the same dictionary. *)
Theorem class_count_ignores_order target target' :
  target ≡ₚ target' -> class_count target = class_count target'.
Proof.
  intros Hp.
  destruct (class_count_from_lookup target ∅) as (c & Hc & Hl).
  destruct (class_count_from_lookup target' ∅) as (c' & Hc' & Hl').
  unfold class_count. rewrite Hc, Hc'. f_equal. apply map_eq. intros t.
  rewrite Hl, Hl', lookup_empty.
  assert (Hocc : occurrences t target = occurrences t target').
  { unfold occurrences. now rewrite Hp. }
  destruct (decide (t ∈ target)) as [Hin|Hnin].
  - rewrite decide_True by (now rewrite <- Hp). now rewrite Hocc.
  - rewrite decide_False by (now rewrite <- Hp). reflexivity.
Qed.

End ClassCount.

Section Failures.

Context `{E : Engine}.

Lemma effective_None w r :
  effective w r = None -> w <> 1 /\ w <> 2 /\ r = None.
Proof.
  unfold effective.
  destruct (w =? 1) eqn:H1; [discriminate|].
  destruct (w =? 2) eqn:H2; [discriminate|].
  apply Z.eqb_neq in H1, H2. auto.
Qed.

Lemma wp_game_body_failure fuel player phase g s :
  can_choose player s ->
  wp (game_body fuel player phase g) s
     (fun _ s' => game_post player phase g s s')
     (label_failure s)
     True.
Proof.
  intros Hc.
  assert (H2 : wp (game_body fuel player phase g) s
                  (fun _ _ => True) (label_failure s) True).
  { unfold game_body. apply wp_bind.
    eapply wp_mono; [apply (wp_simulate (fun _ => O)) | | | auto]; cycle 1.
    { intros e s' Hn. destruct (Hn Hc). }
    intros [wn vs] s1
      (gl & [= -> ->] & Hh & _ & _ & Hok & _ & Hd & Ht & Hr & Hf & Hfi).
    unfold wp. rewrite label_loop_eq.
    destruct (game_vectors gl) as [|v vs] eqn:Hvs; [exact I|].
    destruct (effective (g_winner gl) (result s1)) as [l|] eqn:Heff;
      [exact I|].
    apply effective_None in Heff as (H1 & H2 & Hres).
    split; [reflexivity|]. split; [congruence|].
    exists gl, v, vs. simpl. rewrite Hd. split_and!; auto. }
  pose proof (wp_conj _ _ _ _ _ _ _ _
                (wp_game_body (fun _ => O) fuel player phase g s) H2) as H.
  eapply wp_mono; [exact H | | | auto].
  - intros [] s' [H1 _]. exact H1.
  - intros e s' [_ H1]. exact H1.
Qed.

Lemma game_post_result_None player phase g s s' :
  game_post player phase g s s' -> result s' = None ->
  result s = None /\ data s' = data s /\ target s' = target s /\
  fs s' = fs s /\ fits s' = fits s /\
  exists gl, history s' = history s ++ [gl] /\ g_decisions gl = [].
Proof.
  intros (gl & l & Hh & _ & _ & _ & _ & Hd & Ht & _ & Hr & Hf & Hfi) Hnone.
  rewrite Hr in Hnone. unfold result_after in Hnone.
  destruct (g_decisions gl) as [|d ds] eqn:Hds; [|discriminate].
  unfold game_vectors in Hd. rewrite Hds in Hd. simpl in Hd, Ht.
  rewrite app_nil_r in Hd, Ht. split_and!; eauto.
Qed.

Lemma wp_games_failure fuel player phase gs :
  forall s,
    can_choose player s ->
    wp (for_each (game_body fuel player phase) gs) s
       (fun _ s' => exists new ls, run_post player gs s s' new ls)
       (run_failure s)
       True.
Proof.
  induction gs as [|g gs IH]; intros s Hc.
  - pose proof (wp_games (fun _ => O) fuel player phase [] s) as H.
    unfold wp in *. simpl in *. exact (proj2 H).
  - simpl. apply wp_bind.
    eapply wp_mono; [apply (wp_game_body_failure _ _ _ _ _ Hc) | | | auto].
    + intros [] s1 Hpost.
      eapply wp_mono;
        [apply (IH s1 (game_post_can_choose _ _ _ _ _ Hpost Hc)) | | | auto].
      * intros [] s' (new & ls & Hrun).
        destruct (run_post_cons _ _ _ _ _ _ _ _ _ Hpost Hrun) as (gl & l & H).
        eauto.
      * intros e s'
          (-> & Hres & new & gl & v & vs & Hh & Hnew & Hok & H1 & H2 & Hvs &
           Hd & Ht & Hf & Hfi).
        destruct (game_post_result_None _ _ _ _ _ Hpost Hres)
          as (Hres0 & Hd0 & Ht0 & Hf0 & Hfi0 & gl0 & Hh0 & Hds0).
        split; [reflexivity|]. split; [exact Hres0|].
        exists (gl0 :: new), gl, v, vs.
        rewrite Hh, Hh0, Hd, Hd0, Ht, Ht0, Hf, Hf0, Hfi, Hfi0.
        rewrite <- !app_assoc. simpl. split_and!; auto.
    + intros e s'
        (-> & Hres & gl & v & vs & Hh & Hok & H1 & H2 & Hvs & Hd & Ht & Hf &
         Hfi).
      split; [reflexivity|]. split; [exact Hres|].
      exists [], gl, v, vs. simpl. split_and!; auto.
Qed.

Lemma init_store_can_choose player s :
  roster_ok player -> can_choose player (init_store player s).
Proof.
  destruct player as [b|ro]; simpl; [auto|]. intros Hne.
  eexists; split; [reflexivity|]. unfold live. simpl. now left.
Qed.

Lemma create_dataset_outcome fuel path player games phase s :
  roster_ok player ->
  wp (create_dataset fuel path player games phase) s
     (fun r s' => exists new ls, dataset_post path player games s r s' new ls)
     (run_failure (init_store player s))
     True.
Proof.
  intros Hro. unfold create_dataset. apply wp_bind. unfold init_locals.
  do 3 apply wp_bind, wp_modify. apply wp_modify.
  apply wp_bind.
  eapply wp_mono;
    [apply (wp_games_failure fuel player phase _ (init_store player s)
              (init_store_can_choose player s Hro))
    | | | auto]; [|auto].
  intros [] s' (new & ls & Hh & Hi & Hok & Hpl & Hd & Ht & Hlab & Hf & Hfi).
  simpl in *.
  apply wp_bind, wp_gets. apply wp_bind, wp_gets.
  apply wp_bind, wp_modify. apply wp_ret.
  exists new, ls. unfold dataset_post. simpl.
  rewrite Hd, Ht, Hf. split_and!; auto.
  destruct player as [b|ro]; simpl in *; auto.
Qed.

Lemma range_nonpos n : n <= 0 -> range n = [].
Proof.
  intros Hn. unfold range. replace (Z.to_nat n) with O by lia. reflexivity.
Qed.

Lemma empty_roster_loop fuel phase rest s :
  for_each (game_body fuel (Roster []) phase) (0 :: rest)
           (init_store (Roster []) s) =
  Raise StopIteration
        (set_world (generate phase (world s)).2 (init_store (Roster []) s)).
Proof.
  cbn [for_each]. unfold game_body, simulate.
  cbv beta iota delta [mbind M_bind bind call_generate].
  change (world (init_store (Roster []) s)) with (world s).
  destruct (generate phase (world s)) as [st w]. reflexivity.
Qed.

(** X4.  A call of [create_dataset] that raises an exception has
    written nothing: the file system is as it was before the call.  A
    call that returns has changed the file system at its path only,
    where the file now holds the dataset that is returned. *)
Theorem create_dataset_writes_all_or_nothing fuel path player games phase s :
  match create_dataset fuel path player games phase s with
  | Ret r s' => fs s' = <[path := PickleFile r]> (fs s)
  | Raise _ s' => fs s' = fs s
  | OutOfFuel => True
  end.
Proof.
  destruct (create_dataset fuel path player games phase s) as [r s'|e s'|]
    eqn:Heq; [| |exact I].
  - destruct (create_dataset_Ret _ _ _ _ _ _ _ _ Heq) as (new & ls & H).
    apply H.
  - assert (Hcases : roster_ok player \/ player = Roster []).
    { destruct player as [b|[|b ro]]; simpl; auto. }
    destruct Hcases as [Hro | ->].
    + pose proof (create_dataset_outcome fuel path player games phase s Hro)
        as H.
      unfold wp in H. rewrite Heq in H.
      destruct H as (_ & _ & new & gl & v & vs & _ & _ & _ & _ & _ & _ & _ &
                     _ & Hf & _).
      exact Hf.
    + rewrite create_dataset_eq in Heq.
      destruct (Z_le_gt_dec (games - 1) 0) as [Hle | Hgt].
      * rewrite (range_nonpos _ Hle) in Heq. discriminate.
      * destruct (range_first (games - 1)) as (rest & Hrange); [lia|].
        rewrite Hrange in Heq.
        change ((init_locals (Roster []) ≫= fun _ =>
                   for_each (game_body fuel (Roster []) phase) (0 :: rest)) s)
          with (for_each (game_body fuel (Roster []) phase) (0 :: rest)
                         (init_store (Roster []) s)) in Heq.
        rewrite empty_roster_loop in Heq. injection Heq as _ <-.
        reflexivity.
Qed.


(** X6.  With an empty roster and a game count of 2 or more,
    [create_dataset] raises StopIteration in the first turn of its loop:
    one state was generated, but no game was played or logged, no
    record was buffered and nothing was written. *)
Theorem create_dataset_empty_roster_stops fuel path games phase s :
  2 <= games ->
  exists s',
    create_dataset fuel path (Roster []) games phase s
      = Raise StopIteration s' /\
    world s' = (generate phase (world s)).2 /\
    history s' = history s /\
    data s' = [] /\ target s' = [] /\
    fs s' = fs s.
Proof.
  intros Hg. destruct (range_first (games - 1)) as (rest & Hrange); [lia|].
  rewrite create_dataset_eq, Hrange.
  change ((init_locals (Roster []) ≫= fun _ =>
             for_each (game_body fuel (Roster []) phase) (0 :: rest)) s)
    with (for_each (game_body fuel (Roster []) phase) (0 :: rest)
                   (init_store (Roster []) s)).
  rewrite empty_roster_loop. eexists. split; [reflexivity|].
  simpl. split_and!; reflexivity.
Qed.

(** X7.  With a game count of 1 or less (0 and negative counts
    included), [create_dataset] calls no collaborator and plays no game:
    it writes and returns the empty dataset, for any player, an empty
    roster included. *)
Theorem create_dataset_without_games fuel path player games phase s :
  games <= 1 ->
  exists s',
    create_dataset fuel path player games phase s = Ret ([], []) s' /\
    world s' = world s /\
    history s' = history s /\
    fs s' = <[path := PickleFile ([], [])]> (fs s).
Proof.
  intros Hg. rewrite create_dataset_eq, range_nonpos by lia.
  eexists. split; [reflexivity|]. simpl. split_and!; reflexivity.
Qed.

End Failures.

Section Trajectories.

Context `{E : Engine}.

Lemma chained_app start ds d :
  chained start ds (d_state d) ->
  chained start (ds ++ [d]) (d_next d).
Proof.
  revert start. induction ds as [|d0 ds IH]; intros start; simpl.
  - intros ->. auto.
  - intros [-> H]. auto.
Qed.

Lemma wp_play_chain fuel p :
  forall st vs tr s start,
    chained start tr st ->
    wp (play fuel p st vs tr) s
       (fun r _ => chained start r.2 r.1.1)
       (fun _ _ => True) True.
Proof.
  induction fuel as [|fuel IH]; intros st vs tr s start Hch.
  - exact I.
  - simpl. destruct (finished st) eqn:Hfin.
    + apply wp_ret. exact Hch.
    + apply wp_bind. unfold wp at 1, call_get_move.
      destruct (get_move p (given_state_of st) (world s)) as [mv w1].
      apply wp_bind. unfold wp at 1, call_next. simpl.
      destruct (next st mv w1) as [st' w2].
      apply IH.
      exact (chained_app start tr
               (Decision st (given_state_of st) (given_state_of st) mv st')
               Hch).
Qed.

Lemma wp_simulate_logged fuel player phase g s :
  wp (simulate fuel player phase g) s
     (fun _ s' => exists gl, history s' = history s ++ [gl] /\
                             trajectory phase gl)
     (fun _ s' => history s' = history s)
     True.
Proof.
  unfold simulate. apply wp_bind. unfold wp at 1, call_generate.
  destruct (generate phase (world s)) as [st0 w0] eqn:Hgen.
  apply wp_bind.
  assert (Hch : wp (choose_player player) (set_world w0 s)
                   (fun _ s' => history s' = history s)
                   (fun _ s' => history s' = history s) True).
  { destruct player as [b|ro]; simpl.
    - apply wp_ret. reflexivity.
    - apply wp_bind, wp_gets.
      destruct (player_list (set_world w0 s)) as [c|].
      + destruct (itertools.next c) as [[b c']|].
        * apply wp_bind, wp_modify, wp_ret. reflexivity.
        * apply wp_raise. reflexivity.
      + apply wp_raise. reflexivity. }
  eapply wp_mono; [exact Hch | | auto | auto].
  intros b s1 Hh1. apply wp_bind.
  pose proof (wp_conj _ _ _ _ _ _ _ _
                (wp_play (fun _ => O) fuel b st0 [] [] s1)
                (wp_play_chain fuel b st0 [] [] s1 st0 eq_refl)) as Hplay.
  eapply wp_mono; [exact Hplay | | | auto]; cycle 1.
  { intros e s' [[] _]. }
  intros [[final vs] tr] s2 [(Hfin & ds & Htr & _ & Hds & Hw) Hchain].
  simpl in *. subst tr.
  destruct (winner final) as [wn score].
  apply wp_bind, wp_modify, wp_ret. simpl.
  apply only_world_proj in Hw.
  destruct Hw as (_ & _ & _ & _ & _ & Hh & _).
  eexists. rewrite Hh, Hh1. split; [reflexivity|].
  unfold trajectory. simpl. split_and!; auto.
  - exists (world s). now rewrite Hgen.
  - eapply Forall_impl; [exact Hds|].
    intros d (Hf & _ & Hm & (w & Hmv) & Hnx). rewrite Hm in Hmv. eauto.
Qed.

Lemma wp_games_logged fuel player phase gs :
  forall s,
    wp (for_each (game_body fuel player phase) gs) s
       (fun _ s' => exists new, history s' = history s ++ new /\
                                Forall (trajectory phase) new)
       (fun _ s' => exists new, history s' = history s ++ new /\
                                Forall (trajectory phase) new)
       True.
Proof.
  induction gs as [|g gs IH]; intros s.
  - apply wp_ret. exists []. now rewrite app_nil_r.
  - simpl. apply wp_bind.
    assert (Hbody : wp (game_body fuel player phase g) s
                       (fun _ s' => exists gl, history s' = history s ++ [gl] /\
                                               trajectory phase gl)
                       (fun _ s' => exists new,
                                      history s' = history s ++ new /\
                                      Forall (trajectory phase) new)
                       True).
    { unfold game_body. apply wp_bind.
      eapply wp_mono; [apply wp_simulate_logged | | | auto].
      - intros [wn vs] s1 (gl & Hh & Hgl).
        unfold wp. rewrite label_loop_eq.
        destruct vs as [|v vs]; [eauto|].
        destruct (effective wn (result s1)); simpl; [eauto|].
        exists [gl]. split; [exact Hh|]. now constructor.
      - intros e s' Hh. exists []. now rewrite app_nil_r. }
    eapply wp_mono; [exact Hbody | | auto | auto].
    intros [] s1 (gl & Hh & Hgl).
    eapply wp_mono; [apply IH | | | auto].
    + intros [] s' (new & Hh' & Hnew). exists (gl :: new).
      rewrite Hh', Hh, <- app_assoc. split; [reflexivity|]. now constructor.
    + intros e s' (new & Hh' & Hnew). exists (gl :: new).
      rewrite Hh', Hh, <- app_assoc. split; [reflexivity|]. now constructor.
Qed.

(** X8.  Every game that [create_dataset] logs, also in a run that ends
    with an exception, is a trajectory of the engine: it leads from a
    generated state to a finished one through chained decision points,
    and at each of them the bot is asked on the view of the state while
    the game advances on the state itself. *)
Theorem logged_games_are_trajectories fuel path player games phase s :
  match create_dataset fuel path player games phase s with
  | Ret _ s' | Raise _ s' =>
      exists new,
        history s' = history s ++ new /\ Forall (trajectory phase) new
  | OutOfFuel => True
  end.
Proof.
  assert (H : wp (create_dataset fuel path player games phase) s
                 (fun _ s' => exists new, history s' = history s ++ new /\
                                          Forall (trajectory phase) new)
                 (fun _ s' => exists new, history s' = history s ++ new /\
                                          Forall (trajectory phase) new)
                 True).
  { unfold create_dataset. apply wp_bind. unfold init_locals.
    do 3 apply wp_bind, wp_modify. apply wp_modify.
    apply wp_bind.
    eapply wp_mono; [apply wp_games_logged | | auto | auto].
    intros [] s' Hnew. simpl in Hnew.
    apply wp_bind, wp_gets. apply wp_bind, wp_gets.
    apply wp_bind, wp_modify. apply wp_ret. exact Hnew. }
  unfold wp in H.
  destruct (create_dataset fuel path player games phase s); auto.
Qed.

End Trajectories.

Section Names.

Lemma append_char_inj c a a' b b' :
  free_of c a -> free_of c a' ->
  a +:+ String c b = a' +:+ String c b' ->
  a = a' /\ b = b'.
Proof.
  revert a'. induction a as [|x a IH]; intros [|x' a']; simpl.
  - intros _ _ [= ->]. auto.
  - intros _ [Hx' _] [= <- _]. congruence.
  - intros [Hx _] _ [= -> _]. congruence.
  - intros [_ Ha] [_ Ha'] [= <- Heq].
    destruct (IH a' Ha Ha' Heq) as [-> ->]. auto.
Qed.

Lemma pretty_N_go_free c x :
  (forall d, pretty_N_char d <> c) ->
  forall s, free_of c s -> free_of c (pretty_N_go x s).
Proof.
  intros Hc. induction (N.lt_wf_0 x) as [x _ IH]; intros s Hs.
  destruct (decide (x = 0)%N) as [-> | Hx].
  - now rewrite pretty_N_go_0.
  - rewrite pretty_N_go_step by lia. apply IH.
    + apply N.div_lt; lia.
    + simpl. split; [apply Hc | exact Hs].
Qed.

Lemma str_free c n :
  (forall d, pretty_N_char d <> c) -> c <> "-"%char -> free_of c (str n).
Proof.
  intros Hc Hdash.
  assert (HN : forall x : N, free_of c (pretty x)).
  { intros x. unfold pretty, pretty_N. destruct (decide (x = 0)%N).
    - simpl. split; [|exact I]. exact (Hc 0%N).
    - apply pretty_N_go_free; [exact Hc | exact I]. }
  unfold str, pretty, pretty_Z. destruct n as [|q|q].
  - simpl. split; [|exact I]. exact (Hc 0%N).
  - apply (HN (N.pos q)).
  - simpl. split; [congruence|]. apply (HN (N.pos q)).
Qed.

Lemma digit_not_x d : pretty_N_char d <> "x"%char.
Proof. unfold pretty_N_char. repeat case_match; discriminate. Qed.

Lemma digit_not_dot d : pretty_N_char d <> "."%char.
Proof. unfold pretty_N_char. repeat case_match; discriminate. Qed.

Lemma model_path_of_inj n w n' w' :
  model_path_of n w = model_path_of n' w' -> n = n' /\ w = w'.
Proof.
  unfold model_path_of. intros H.
  apply (f_equal (fun s => match s with
                           | String _ (String _ (String _ (String _
                               (String _ r)))) => r
                           | _ => s
                           end)) in H.
  cbn [String.app] in H.
  apply (append_char_inj "x") in H;
    [| apply str_free; [apply digit_not_x | discriminate]
     | apply str_free; [apply digit_not_x | discriminate]].
  destruct H as [Hn Hw]. split; [now apply (inj pretty)|].
  change (str w +:+ String "." "pkl" = str w' +:+ String "." "pkl") in Hw.
  apply (append_char_inj ".") in Hw;
    [| apply str_free; [apply digit_not_dot | discriminate]
     | apply str_free; [apply digit_not_dot | discriminate]].
  destruct Hw as [Hw _]. now apply (inj pretty).
Qed.

End Names.

Section SweepMore.

Context `{E : Engine}.

Lemma append_inj_l a b b' : a +:+ b = a +:+ b' -> b = b'.
Proof.
  induction a as [|x a IH]; simpl; [auto|]. intros [= H]. auto.
Qed.

Lemma artifact_path_inj n w n' w' :
  artifact_path n w = artifact_path n' w' -> n = n' /\ w = w'.
Proof.
  unfold artifact_path. intros H.
  apply append_inj_l in H. now apply model_path_of_inj.
Qed.

Lemma elem_of_grid n w layers sizes :
  (n, w) ∈ grid layers sizes <-> n ∈ layers /\ w ∈ sizes.
Proof.
  unfold grid. rewrite !list_elem_of_In, in_flat_map. split.
  - intros (n' & Hn' & Hin). apply in_map_iff in Hin.
    destruct Hin as (w' & [= <- <-] & Hw'). auto.
  - intros [Hn Hw]. exists n. split; [exact Hn|].
    apply in_map_iff. eauto.
Qed.

Lemma length_grid layers sizes :
  length (grid layers sizes) = (length layers * length sizes)%nat.
Proof.
  unfold grid. induction layers as [|n layers IH]; [reflexivity|].
  simpl. now rewrite length_app, length_map, IH.
Qed.

Lemma NoDup_grid layers sizes :
  NoDup layers -> NoDup sizes -> NoDup (grid layers sizes).
Proof.
  intros Hl Hs. unfold grid.
  induction Hl as [|n layers Hn Hl IH]; simpl; [constructor|].
  apply NoDup_app. split_and!.
  - apply (NoDup_fmap_2 _). exact Hs.
  - intros [n' w'] Hin Hin'.
    apply list_elem_of_fmap in Hin as (w & [= -> ->] & _).
    apply (elem_of_grid n w layers sizes) in Hin' as [Hin' _]. contradiction.
  - exact IH.
Qed.

(** X9.  No two configurations of a sweep share a model file: the file
    name determines the layer count and the width, so a sweep over
    option lists without repetitions dumps its models at pairwise
    different paths, and no model overwrites another. *)
Theorem sweep_paths_are_distinct layers sizes :
  NoDup layers -> NoDup sizes ->
  NoDup (map (fun c => artifact_path c.1 c.2) (grid layers sizes)).
Proof.
  intros Hl Hs. apply NoDup_fmap_2_strong; [|now apply NoDup_grid].
  intros [n w] [n' w'] _ _ Heq. simpl in Heq.
  apply artifact_path_inj in Heq as [-> ->]. reflexivity.
Qed.

Lemma sweep_spec dset d layers sizes s :
  fs s !! dset = Some (PickleFile d) ->
  Forall (fun c => artifact_path c.1 c.2 <> dset) (grid layers sizes) ->
  exists s',
    sweep dset layers sizes s = Ret tt s' /\
    fits s' = fits s ++ map fit_log_of (grid layers sizes) /\
    length (grid layers sizes) = (length layers * length sizes)%nat /\
    fs s' !! dset = Some (PickleFile d) /\
    (forall n w,
       n ∈ layers -> w ∈ sizes ->
       exists w0,
         fs s' !! artifact_path n w =
         Some (JoblibFile (fit (learner_of n w) d.1 d.2 w0).1)) /\
    (forall p,
       (forall n w, n ∈ layers -> w ∈ sizes -> p <> artifact_path n w) ->
       fs s' !! p = fs s !! p) /\
    history s' = history s.
Proof.
  intros Hd Hgrid.
  destruct (wp_returns _ _ _ (wp_sweep dset d layers sizes s Hd Hgrid))
    as ([] & s' & Heq & Hf & Ha & Ho & _ & _ & Hh).
  assert (Hout : forall p,
             (forall n w, n ∈ layers -> w ∈ sizes -> p <> artifact_path n w) ->
             p ∉ map (fun c => artifact_path c.1 c.2) (grid layers sizes)).
  { intros p Hp Hin. apply list_elem_of_fmap in Hin as ([n w] & -> & Hin).
    apply elem_of_grid in Hin as [Hn Hw]. exact (Hp n w Hn Hw eq_refl). }
  exists s'. split_and!; auto.
  - apply length_grid.
  - rewrite Ho; [exact Hd|]. apply Hout. intros n w Hn Hw ->.
    rewrite Forall_forall in Hgrid.
    apply (Hgrid (n, w)); [now apply elem_of_grid | reflexivity].
  - intros n w Hn Hw.
    destruct (Ha (artifact_path n w)) as ([n' w'] & w0 & _ & Hp & Hfs).
    { apply list_elem_of_fmap. exists (n, w).
      split; [reflexivity | now apply elem_of_grid]. }
    simpl in Hp, Hfs. apply artifact_path_inj in Hp as [<- <-]. eauto.
Qed.

(** X10.  A sweep over any two option lists, on a dataset file that is
    a pickled dataset and lies at none of the model paths, returns
    after one fit per pair, in the order of the nested loops (outer
    layer counts, inner widths); the dataset file is left as it is;
    for every pair the file at its path holds a model fitted with the
    configuration of that pair on the dataset; no other path changes
    and no game is simulated. *)
Theorem sweep_fits_every_configuration dset d layers sizes s :
  fs s !! dset = Some (PickleFile d) ->
  Forall (fun c => artifact_path c.1 c.2 <> dset) (grid layers sizes) ->
  exists s',
    sweep dset layers sizes s = Ret tt s' /\
    fits s' = fits s ++ map fit_log_of (grid layers sizes) /\
    length (grid layers sizes) = (length layers * length sizes)%nat /\
    fs s' !! dset = Some (PickleFile d) /\
    (forall n w,
       n ∈ layers -> w ∈ sizes ->
       exists w0,
         fs s' !! artifact_path n w =
         Some (JoblibFile (fit (learner_of n w) d.1 d.2 w0).1)) /\
    (forall p,
       (forall n w, n ∈ layers -> w ∈ sizes -> p <> artifact_path n w) ->
       fs s' !! p = fs s !! p) /\
    history s' = history s.
Proof. apply sweep_spec. Qed.

Lemma sweep_body_eq dset d n w s :
  fs s !! dset = Some (PickleFile d) ->
  sweep_body dset n w s =
  Ret tt (set_fits (fun l => l ++ [fit_log_of (n, w)])
            (set_fs (fun f =>
                       <[artifact_path n w :=
                           JoblibFile
                             (fit (learner_of n w) d.1 d.2 (world s)).1]> f)
               (set_world (fit (learner_of n w) d.1 d.2 (world s)).2 s))).
Proof.
  intros Hd. unfold sweep_body, read_dataset, call_fit, write_file.
  cbv beta iota delta [mbind M_bind bind gets ret modify]. rewrite Hd.
  destruct d as [dat tar]. simpl.
  destruct (fit (learner_of n w) dat tar (world s)) as [m w1]. reflexivity.
Qed.

Lemma sweep_body_failure dset n w s :
  sweep_body dset n w s =
  match fs s !! dset with
  | Some (PickleFile d) => sweep_body dset n w s
  | Some (JoblibFile _) => Raise TypeError s
  | Some OtherFile => Raise UnpicklingError s
  | None => Raise FileNotFoundError s
  end.
Proof.
  destruct (fs s !! dset) as [[d|m|]|] eqn:Hd; [reflexivity| | |];
    unfold sweep_body, read_dataset;
    cbv beta iota delta [mbind M_bind bind gets]; now rewrite Hd.
Qed.

(** X11.  When no file lies at the dataset path, a sweep with at least
    one layer count and one width raises FileNotFoundError in its first
    turn, before anything is fitted or written: the store is as it
    was. *)
Theorem sweep_without_dataset_file dset n layers w sizes s :
  fs s !! dset = None ->
  sweep dset (n :: layers) (w :: sizes) s = Raise FileNotFoundError s.
Proof.
  intros Hd. unfold sweep. cbn [for_each].
  cbv beta iota delta [mbind M_bind bind].
  now rewrite sweep_body_failure, Hd.
Qed.

(** X12.  When the dataset file lies at the path of the first model of
    the sweep, the first turn dumps its model over the dataset, and the
    second turn fails on loading it: one model was fitted, the dataset
    is lost, and the sweep ends with an exception. *)
Theorem sweep_over_its_own_dataset dset d n layers w w2 sizes s :
  fs s !! dset = Some (PickleFile d) ->
  dset = artifact_path n w ->
  exists e s',
    sweep dset (n :: layers) (w :: w2 :: sizes) s = Raise e s' /\
    fits s' = fits s ++ [fit_log_of (n, w)] /\
    fs s' !! dset =
      Some (JoblibFile (fit (learner_of n w) d.1 d.2 (world s)).1).
Proof.
  intros Hd ->. unfold sweep. cbn [for_each].
  cbv beta iota delta [mbind M_bind bind].
  rewrite (sweep_body_eq _ d n w s Hd).
  rewrite sweep_body_failure. simpl. rewrite lookup_insert_eq.
  eexists _, _. split; [reflexivity|]. simpl.
  split; [reflexivity|]. apply lookup_insert_eq.
Qed.

End SweepMore.

Section MainMore.

Context `{E : Engine}.

Lemma generation_skip fuel opts s :
  overwrite opts = false -> isfile (fs s) (dset_path opts) = true ->
  generation fuel opts s = Ret tt s.
Proof.
  intros Ho Hf. unfold generation.
  unfold mbind, M_bind, bind, gets. simpl. now rewrite Ho, Hf.
Qed.

Lemma generation_run fuel opts s :
  overwrite opts = true \/ isfile (fs s) (dset_path opts) = false ->
  generation fuel opts s =
  match create_dataset fuel (dset_path opts)
          (Roster [rand_Bot; rdeep_Bot; bully_Bot]) 10000 1 s with
  | Ret _ s' => Ret tt s'
  | Raise e s' => Raise e s'
  | OutOfFuel => OutOfFuel
  end.
Proof.
  intros Hc. unfold generation.
  unfold mbind at 1, M_bind at 1, bind at 1, gets. simpl.
  assert (overwrite opts || negb (isfile (fs s) (dset_path opts)) = true)
    as ->.
  { destruct Hc as [-> | ->]; [reflexivity | apply orb_true_r]. }
  reflexivity.
Qed.

Lemma generation_cases opts s :
  (overwrite opts = false /\ isfile (fs s) (dset_path opts) = true) \/
  (overwrite opts = true \/ isfile (fs s) (dset_path opts) = false).
Proof.
  destruct (overwrite opts); [auto|].
  destruct (isfile (fs s) (dset_path opts)); auto.
Qed.

Lemma roster_of_three_ok :
  roster_ok (Roster [rand_Bot; rdeep_Bot; bully_Bot]).
Proof. discriminate. Qed.

Lemma isfile_insert (f : gmap string node) p n : isfile (<[p := n]> f) p = true.
Proof. unfold isfile. now rewrite lookup_insert_eq. Qed.

(** X13.  Whenever the generation step of the script returns, a file
    lies at the dataset path: the training that follows never misses
    it. *)
Theorem generation_leaves_a_dataset_file fuel opts s s' :
  generation fuel opts s = Ret tt s' ->
  isfile (fs s') (dset_path opts) = true.
Proof.
  intros Heq. destruct (generation_cases opts s) as [[Ho Hf] | Hc].
  - rewrite (generation_skip _ _ _ Ho Hf) in Heq. now injection Heq as <-.
  - rewrite (generation_run _ _ _ Hc) in Heq.
    destruct (create_dataset fuel (dset_path opts) _ 10000 1 s)
      as [r s1| |] eqn:Hcd; [|discriminate|discriminate].
    injection Heq as <-.
    destruct (create_dataset_Ret _ _ _ _ _ _ _ _ Hcd)
      as (new & ls & _ & _ & _ & _ & _ & _ & _ & _ & Hfs & _).
    rewrite Hfs. apply isfile_insert.
Qed.

(** X14.  The dataset that [create_dataset] wrote can be loaded again:
    reading its path in the store it returns gives the dataset it
    returned. *)
Theorem dataset_is_read_back fuel path player games phase s r s' :
  create_dataset fuel path player games phase s = Ret r s' ->
  read_dataset path s' = Ret r s'.
Proof.
  intros Heq.
  destruct (create_dataset_Ret _ _ _ _ _ _ _ _ Heq)
    as (new & ls & _ & _ & _ & _ & _ & _ & _ & _ & Hfs & _).
  unfold read_dataset. cbv beta iota delta [mbind M_bind bind gets].
  now rewrite Hfs, lookup_insert_eq.
Qed.




Lemma main_eq fuel opts s :
  main fuel opts s =
  match generation fuel opts s with
  | Ret _ s1 =>
      if train opts then
        sweep (dset_path opts) number_of_layers_list hidden_layer_sizes_list s1
      else Ret tt s1
  | Raise e s1 => Raise e s1
  | OutOfFuel => OutOfFuel
  end.
Proof.
  unfold main, mbind, M_bind, bind.
  destruct (generation fuel opts s) as [[] s1| |]; try reflexivity.
  now destruct (train opts).
Qed.

(** X16.  With training switched off, the script fits no classifier and
    writes no model: however it ends, no fit was logged and no path of
    the file system other than the dataset path has changed. *)
Theorem main_without_training_touches_the_dataset_only fuel opts s :
  train opts = false ->
  match main fuel opts s with
  | Ret _ s' | Raise _ s' =>
      fits s' = fits s /\
      forall p, p <> dset_path opts -> fs s' !! p = fs s !! p
  | OutOfFuel => True
  end.
Proof.
  intros Ht. rewrite main_eq, Ht.
  destruct (generation_cases opts s) as [[Ho Hf] | Hc].
  - rewrite (generation_skip _ _ _ Ho Hf). auto.
  - rewrite (generation_run _ _ _ Hc).
    pose proof (create_dataset_outcome fuel (dset_path opts)
                  (Roster [rand_Bot; rdeep_Bot; bully_Bot]) 10000 1 s
                  roster_of_three_ok) as H.
    unfold wp in H.
    destruct (create_dataset fuel (dset_path opts) _ 10000 1 s)
      as [r s1|e s1|]; [| |exact I].
    + destruct H as (new & ls & _ & _ & _ & _ & _ & _ & _ & _ & Hfs & Hfi).
      split; [exact Hfi|]. intros p Hp. rewrite Hfs.
      now apply lookup_insert_ne.
    + destruct H as (_ & _ & new & gl & v & vs & _ & _ & _ & _ & _ & _ & _ &
                     _ & Hfs & Hfi).
      split; [exact Hfi|]. intros p _. now rewrite Hfs.
Qed.

(** X17.  With the overwrite flag cleared and a pickled dataset at the
    dataset path, which is none of the model paths, the script plays no
    game and returns after sixteen fits, one per pair of the layer
    counts [1, 2, 3, 4] and the widths [128, 64, 32, 16]; every model
    file holds a model fitted with its configuration on the dataset of
    the file, which is left as it was. *)
Theorem main_trains_on_the_existing_dataset fuel opts d s :
  overwrite opts = false -> train opts = true ->
  fs s !! dset_path opts = Some (PickleFile d) ->
  Forall (fun c => artifact_path c.1 c.2 <> dset_path opts)
         (grid number_of_layers_list hidden_layer_sizes_list) ->
  exists s',
    main fuel opts s = Ret tt s' /\
    history s' = history s /\
    fits s' =
      fits s ++
      map fit_log_of (grid number_of_layers_list hidden_layer_sizes_list) /\
    length (fits s') = (length (fits s) + 16)%nat /\
    fs s' !! dset_path opts = Some (PickleFile d) /\
    forall n w,
      n ∈ number_of_layers_list -> w ∈ hidden_layer_sizes_list ->
      exists w0,
        fs s' !! artifact_path n w =
        Some (JoblibFile (fit (learner_of n w) d.1 d.2 w0).1).
Proof.
  intros Ho Ht Hd Hgrid.
  assert (Hf : isfile (fs s) (dset_path opts) = true).
  { unfold isfile. now rewrite Hd. }
  rewrite main_eq, (generation_skip _ _ _ Ho Hf), Ht.
  destruct (sweep_spec (dset_path opts) d number_of_layers_list
              hidden_layer_sizes_list s Hd Hgrid)
    as (s' & Heq & Hfi & _ & Hd' & Ha & _ & Hh).
  exists s'. split_and!; auto.
  rewrite Hfi, length_app, length_map, length_grid. reflexivity.
Qed.

(** X18.  When the dataset is generated (the overwrite flag is set or no
    file lies at the dataset path, which is none of the model paths),
    the games end and every winner is player 1 or player 2, the script
    returns, and every one of its sixteen models is fitted on the
    dataset that [create_dataset] has just returned and written. *)
Theorem main_trains_on_the_generated_dataset
    (remaining : State -> nat) fuel opts s :
  games_end remaining fuel -> winners_ok ->
  train opts = true ->
  overwrite opts = true \/ isfile (fs s) (dset_path opts) = false ->
  Forall (fun c => artifact_path c.1 c.2 <> dset_path opts)
         (grid number_of_layers_list hidden_layer_sizes_list) ->
  exists r s1 s',
    create_dataset fuel (dset_path opts)
      (Roster [rand_Bot; rdeep_Bot; bully_Bot]) 10000 1 s = Ret r s1 /\
    main fuel opts s = Ret tt s' /\
    history s' = history s1 /\
    fs s' !! dset_path opts = Some (PickleFile r) /\
    fits s' =
      fits s ++
      map fit_log_of (grid number_of_layers_list hidden_layer_sizes_list) /\
    forall n w,
      n ∈ number_of_layers_list -> w ∈ hidden_layer_sizes_list ->
      exists w0,
        fs s' !! artifact_path n w =
        Some (JoblibFile (fit (learner_of n w) r.1 r.2 w0).1).
Proof.
  intros Hend Hwin Ht Hc Hgrid.
  destruct (create_dataset_returns remaining fuel (dset_path opts)
              (Roster [rand_Bot; rdeep_Bot; bully_Bot]) 10000 1 s
              Hend roster_of_three_ok Hwin)
    as (r & s1 & new & ls & Hcd & _ & _ & _ & _ & _ & _ & _ & _ & Hfs & Hfi).
  assert (Hd : fs s1 !! dset_path opts = Some (PickleFile r)).
  { rewrite Hfs. apply lookup_insert_eq. }
  destruct (sweep_spec (dset_path opts) r number_of_layers_list
              hidden_layer_sizes_list s1 Hd Hgrid)
    as (s' & Heq & Hfi' & _ & Hd' & Ha & _ & Hh).
  exists r, s1, s'.
  rewrite main_eq, (generation_run _ _ _ Hc), Hcd, Ht.
  split_and!; auto. now rewrite Hfi', Hfi.
Qed.

End MainMore.

Section LoopMore.

Context `{E : Engine}.

Lemma length_take_le {A} n : forall c : itertools.cycle A,
  (length (itertools.take n c) <= n)%nat.
Proof.
  induction n as [|n IH]; intros c; simpl; [lia|].
  destruct (itertools.next c) as [[x c']|]; simpl; [|lia].
  specialize (IH c'). lia.
Qed.

(** [itertools.cycle] over a list that is not empty never runs
    out: any number [n] of calls of [next] yields [n] elements, the
    [i]-th being the element [i mod len] of the list.  Over the empty
    list the first call of [next] raises StopIteration. *)
Theorem cycle_yields_round_robin_for_ever {A} (l : list A) n :
  (l <> [] ->
   length (itertools.take n (itertools.make l)) = n /\
   forall i, (i < n)%nat ->
     itertools.take n (itertools.make l) !! i = l !! (i mod length l)%nat) /\
  (l = [] -> itertools.next (itertools.make l) = None).
Proof.
  split.
  - intros Hne.
    assert (Hlook : forall i, (i < n)%nat ->
              itertools.take n (itertools.make l) !! i
              = l !! (i mod length l)%nat).
    { intros i Hi. now apply take_make_lookup. }
    split; [|exact Hlook].
    pose proof (length_take_le n (itertools.make l)) as Hle.
    destruct n as [|n]; [simpl in *; lia|].
    assert (Hlast : is_Some (itertools.take (S n) (itertools.make l) !! n)).
    { rewrite Hlook by lia. apply lookup_lt_is_Some.
      apply Nat.mod_upper_bound. destruct l; [congruence | discriminate]. }
    apply lookup_lt_is_Some in Hlast. lia.
  - intros ->. reflexivity.
Qed.

Lemma choose_player_returns player s :
  can_choose player s ->
  exists b s1,
    choose_player player s = Ret b s1 /\
    data s1 = data s /\ target s1 = target s /\ result s1 = result s /\
    history s1 = history s /\ fs s1 = fs s /\ world s1 = world s.
Proof.
  intros Hc.
  assert (H : wp (choose_player player) s
                 (fun _ s1 =>
                    data s1 = data s /\ target s1 = target s /\
                    result s1 = result s /\ history s1 = history s /\
                    fs s1 = fs s /\ world s1 = world s)
                 (fun _ _ => False) False).
  { eapply wp_mono; [apply wp_choose_player | | | auto]; [|auto].
    intros b s1 Hb. destruct player as [b0|ro].
    - destruct Hb as [_ ->]. split_and!; reflexivity.
    - destruct Hb as (c & c' & _ & _ & ->). split_and!; reflexivity. }
  apply wp_returns in H as (b & s1 & Heq & H). eauto.
Qed.

(** X19.  A game whose generated state is already finished has no
    decision point: the turn of the loop that plays it returns, with
    any winner, without buffering a record and without touching [data],
    [target] or [result]; the game is logged with no decision. *)
Theorem game_finished_at_generation_adds_nothing fuel player phase g s :
  can_choose player s ->
  finished (generate phase (world s)).1 = true ->
  exists s' gl,
    game_body (S fuel) player phase g s = Ret tt s' /\
    data s' = data s /\ target s' = target s /\ result s' = result s /\
    history s' = history s ++ [gl] /\
    g_decisions gl = [] /\
    g_final gl = g_start gl.
Proof.
  intros Hc Hfin. unfold game_body, simulate.
  cbv beta iota delta [mbind M_bind bind call_generate].
  destruct (generate phase (world s)) as [st0 w0] eqn:Hgen. simpl in Hfin.
  assert (Hc0 : can_choose player (set_world w0 s)).
  { destruct player; simpl in *; auto. }
  destruct (choose_player_returns player (set_world w0 s) Hc0)
    as (b & s1 & -> & Hd & Ht & Hr & Hh & _).
  cbn [play]. rewrite Hfin. unfold ret.
  destruct (winner st0) as [wn score]. unfold modify. cbn [for_each].
  unfold ret. eexists _, _. split; [reflexivity|]. simpl.
  rewrite Hd, Ht, Hr, Hh. split_and!; reflexivity.
Qed.

(** X20.  With a single bot, every game of a run that returns is played
    by that bot. *)
Theorem single_bot_plays_every_game fuel path b games phase s r s' :
  create_dataset fuel path (Single b) games phase s = Ret r s' ->
  exists new,
    history s' = history s ++ new /\
    Forall (fun g => g_player g = b) new.
Proof.
  intros Heq.
  destruct (create_dataset_Ret _ _ _ _ _ _ _ _ Heq)
    as (new & ls & _ & _ & _ & Hh & _ & _ & Hpl & _).
  exists new. split; [exact Hh|]. simpl in Hpl.
  apply Forall_forall. intros g Hg.
  apply list_elem_of_lookup in Hg as (i & Hi).
  assert (Hm : map g_player new !! i = Some (g_player g)).
  { now rewrite list_lookup_fmap, Hi. }
  rewrite Hpl in Hm. apply lookup_replicate in Hm as [Hm _]. congruence.
Qed.

Lemma blocks_won_lost_always r new ls :
  r = None \/ r = Some "won" \/ r = Some "lost" ->
  labelled r new ls ->
  Forall (fun l => l = "won" \/ l = "lost") (blocks new ls).
Proof.
  unfold blocks. revert r ls.
  induction new as [|g new IH]; intros r [|l ls] Hr; simpl; try tauto;
    try constructor.
  intros [Hl Hlab]. apply Forall_app. split.
  - unfold label_of, effective in Hl.
    destruct (g_decisions g) as [|d ds] eqn:Hds; [constructor|].
    apply Forall_replicate.
    destruct (g_winner g =? 1); [now left|].
    destruct (g_winner g =? 2); [now right|].
    destruct Hr as [-> | [-> | ->]]; [discriminate | now left | now right].
  - apply (IH (result_after r g l)); [|exact Hlab].
    unfold result_after. destruct (g_decisions g) as [|d ds] eqn:Hds;
      [exact Hr|].
    unfold label_of, effective in Hl.
    destruct (g_winner g =? 1); [subst; auto|].
    destruct (g_winner g =? 2); [subst; auto|].
    destruct Hr as [-> | [-> | ->]]; [congruence | subst; auto | subst; auto].
Qed.

(** X21.  Every label of every dataset that [create_dataset] returns is
    "won" or "lost", whatever winners the engine reports: a game whose
    winner is neither 1 nor 2 either stops the run or takes over one of
    the two labels. *)
Theorem labels_are_always_won_or_lost fuel path player games phase s r s' :
  create_dataset fuel path player games phase s = Ret r s' ->
  Forall (fun l => l = "won" \/ l = "lost") r.2.
Proof.
  intros Heq.
  destruct (create_dataset_Ret _ _ _ _ _ _ _ _ Heq)
    as (new & ls & -> & _ & _ & _ & _ & _ & _ & Hlab & _).
  simpl. apply (blocks_won_lost_always None); auto.
Qed.

(** X22.  Every dataset that [create_dataset] returns has as many
    labels as feature vectors, whatever winners the engine reports. *)
Theorem returned_dataset_is_always_paired
    fuel path player games phase s r s' :
  create_dataset fuel path player games phase s = Ret r s' ->
  length r.1 = length r.2.
Proof.
  intros Heq.
  destruct (create_dataset_Ret _ _ _ _ _ _ _ _ Heq)
    as (new & ls & -> & _ & _ & _ & _ & _ & _ & Hlab & _).
  simpl. symmetry. eapply length_blocks; eauto.
Qed.

End LoopMore.

Section Composition.

Context `{E : Engine}.

(** X23.  The option [--model-path] is parsed and never read: the
    script behaves the same for every value of it, and the model files
    are named by the sweep alone. *)
Theorem model_path_option_is_ignored fuel opts p s :
  main fuel
    {| dset_path := dset_path opts; model_path := p;
       overwrite := overwrite opts; train := train opts |} s
  = main fuel opts s.
Proof.
  unfold main, generation. reflexivity.
Qed.

(** X24.  The class count of a dataset that [create_dataset] returned
    never fails; its dictionary has no key besides "won" and "lost",
    and its counts add up to the number of feature vectors. *)
Theorem class_count_of_a_generated_dataset
    fuel path player games phase s r s' :
  create_dataset fuel path player games phase s = Ret r s' ->
  exists count,
    class_count r.2 = Some count /\
    (forall t, is_Some (count !! t) -> t = "won" \/ t = "lost") /\
    total count = Z.of_nat (length r.1).
Proof.
  intros Heq.
  destruct (create_dataset_Ret _ _ _ _ _ _ _ _ Heq)
    as (new & ls & -> & _ & _ & _ & _ & _ & _ & Hlab & _).
  simpl.
  destruct (class_count_from_lookup (blocks new ls) ∅) as (count & Hc & Hl).
  exists count. split; [exact Hc|]. split.
  - intros t [n Hn]. rewrite Hl, lookup_empty in Hn.
    destruct (decide (t ∈ blocks new ls)) as [Hin|]; [|discriminate].
    pose proof (blocks_won_lost_always None new ls (or_introl eq_refl) Hlab)
      as Hall.
    rewrite Forall_forall in Hall. auto.
  - apply class_count_from_total in Hc. rewrite Hc.
    assert (H0 : total ∅ = 0) by (unfold total; now rewrite map_fold_empty).
    rewrite H0, (length_blocks _ _ _ Hlab). lia.
Qed.

End Composition.

(** * More of the script, on the small engine *)

Lemma class_count_adds_up_witness :
  exists count,
    class_count ["won"; "lost"; "won"] = Some count /\
    total count = Z.of_nat (length ["won"; "lost"; "won"]).
Proof.
  eexists. split; [reflexivity|].
  apply (class_count_adds_up ["won"; "lost"; "won"]). reflexivity.
Defined.

Lemma class_count_ignores_order_witness :
  ["won"; "lost"; "won"] ≡ₚ ["lost"; "won"; "won"] /\
  class_count ["won"; "lost"; "won"] = class_count ["lost"; "won"; "won"].
Proof.
  assert (H : ["won"; "lost"; "won"] ≡ₚ ["lost"; "won"; "won"])
    by apply perm_swap.
  split; [exact H|]. exact (class_count_ignores_order _ _ H).
Defined.


Lemma create_dataset_empty_roster_stops_witness :
  2 <= 3 /\
  exists s',
    create_dataset (E := ToyRun.E0) 4 "dataset.pkl" (Roster []) 3 1 ToyRun.s0
      = Raise StopIteration s' /\
    world s' = (generate 1 (world ToyRun.s0)).2 /\
    history s' = history ToyRun.s0 /\
    data s' = [] /\ target s' = [] /\
    fs s' = fs ToyRun.s0.
Proof.
  assert (H : 2 <= 3) by lia.
  split; [exact H|].
  exact (create_dataset_empty_roster_stops (E := ToyRun.E0)
           4 "dataset.pkl" 3 1 ToyRun.s0 H).
Defined.

Lemma create_dataset_without_games_witness :
  0 <= 1 /\
  exists s',
    create_dataset 4 "dataset.pkl" ToyRun.rand 0 1 ToyRun.s0
      = Ret ([], []) s' /\
    world s' = world ToyRun.s0 /\
    history s' = history ToyRun.s0 /\
    fs s' = <["dataset.pkl" := PickleFile ([], [])]> (fs ToyRun.s0).
Proof.
  assert (H : 0 <= 1) by lia.
  split; [exact H|].
  exact (create_dataset_without_games (E := ToyRun.E0)
           4 "dataset.pkl" ToyRun.rand 0 1 ToyRun.s0 H).
Defined.

Lemma sweep_paths_are_distinct_witness :
  NoDup number_of_layers_list /\
  NoDup hidden_layer_sizes_list /\
  NoDup (map (fun c => artifact_path c.1 c.2)
             (grid number_of_layers_list hidden_layer_sizes_list)).
Proof.
  assert (H1 : NoDup number_of_layers_list).
  { compute_done. }
  assert (H2 : NoDup hidden_layer_sizes_list).
  { compute_done. }
  split; [exact H1|]. split; [exact H2|].
  exact (sweep_paths_are_distinct _ _ H1 H2).
Defined.

Lemma sweep_fits_every_configuration_witness :
  fs ToySweep.with_file !! "dataset.pkl" = Some (PickleFile ToySweep.d0) /\
  Forall (fun c => artifact_path c.1 c.2 <> "dataset.pkl")
         (grid [1; 2] [16; 32]) /\
  exists s',
    sweep "dataset.pkl" [1; 2] [16; 32] ToySweep.with_file = Ret tt s' /\
    fits s' = fits ToySweep.with_file ++ map fit_log_of (grid [1; 2] [16; 32]) /\
    length (grid [1; 2] [16; 32]) = (length [1; 2] * length [16; 32])%nat /\
    fs s' !! "dataset.pkl" = Some (PickleFile ToySweep.d0) /\
    (forall n w,
       n ∈ [1; 2] -> w ∈ [16; 32] ->
       exists w0,
         fs s' !! artifact_path n w =
         Some (JoblibFile
                 (fit (learner_of n w) ToySweep.d0.1 ToySweep.d0.2 w0).1)) /\
    (forall p,
       (forall n w, n ∈ [1; 2] -> w ∈ [16; 32] -> p <> artifact_path n w) ->
       fs s' !! p = fs ToySweep.with_file !! p) /\
    history s' = history ToySweep.with_file.
Proof.
  assert (H1 : fs ToySweep.with_file !! "dataset.pkl"
               = Some (PickleFile ToySweep.d0)) by reflexivity.
  assert (H2 : Forall (fun c => artifact_path c.1 c.2 <> "dataset.pkl")
                      (grid [1; 2] [16; 32])).
  { unfold grid. simpl.
    repeat (apply Forall_cons; split; [vm_compute; discriminate|]).
    apply Forall_nil. exact I. }
  split; [exact H1|]. split; [exact H2|].
  exact (sweep_fits_every_configuration (E := ToyRun.E0)
           "dataset.pkl" ToySweep.d0 [1; 2] [16; 32] ToySweep.with_file H1 H2).
Defined.

Lemma sweep_without_dataset_file_witness :
  fs ToyMore.idle !! "dataset.pkl" = None /\
  sweep "dataset.pkl" (1 :: [2]) (16 :: [32]) ToyMore.idle
    = Raise FileNotFoundError ToyMore.idle.
Proof.
  assert (H : fs ToyMore.idle !! "dataset.pkl" = None) by reflexivity.
  split; [exact H|].
  exact (sweep_without_dataset_file (E := ToyRun.E0)
           "dataset.pkl" 1 [2] 16 [32] ToyMore.idle H).
Defined.

Lemma sweep_over_its_own_dataset_witness :
  fs ToyMore.aliased !! "./bots/ml/model1x128.pkl"
    = Some (PickleFile ToySweep.d0) /\
  "./bots/ml/model1x128.pkl" = artifact_path 1 128 /\
  exists e s',
    sweep "./bots/ml/model1x128.pkl" (1 :: [2]) (128 :: 64 :: [32])
          ToyMore.aliased = Raise e s' /\
    fits s' = fits ToyMore.aliased ++ [fit_log_of (1, 128)] /\
    fs s' !! "./bots/ml/model1x128.pkl" =
      Some (JoblibFile
              (fit (learner_of 1 128) ToySweep.d0.1 ToySweep.d0.2
                   (world ToyMore.aliased)).1).
Proof.
  assert (H1 : fs ToyMore.aliased !! "./bots/ml/model1x128.pkl"
               = Some (PickleFile ToySweep.d0)) by reflexivity.
  assert (H2 : "./bots/ml/model1x128.pkl" = artifact_path 1 128)
    by (vm_compute; reflexivity).
  split; [exact H1|]. split; [exact H2|].
  exact (sweep_over_its_own_dataset (E := ToyRun.E0)
           "./bots/ml/model1x128.pkl" ToySweep.d0 1 [2] 128 64 [32]
           ToyMore.aliased H1 H2).
Defined.

Lemma generation_leaves_a_dataset_file_witness :
  generation 4 ToySweep.keep ToySweep.with_file = Ret tt ToySweep.with_file /\
  isfile (fs ToySweep.with_file) (dset_path ToySweep.keep) = true.
Proof.
  assert (H : generation 4 ToySweep.keep ToySweep.with_file
              = Ret tt ToySweep.with_file) by reflexivity.
  split; [exact H|].
  exact (generation_leaves_a_dataset_file (E := ToyRun.E0)
           4 ToySweep.keep ToySweep.with_file ToySweep.with_file H).
Defined.

Lemma dataset_is_read_back_witness :
  exists r s',
    create_dataset 4 "dataset.pkl" ToyRun.rand 3 1 ToyRun.s0 = Ret r s' /\
    read_dataset "dataset.pkl" s' = Ret r s'.
Proof.
  eexists _, _. split; [vm_compute; reflexivity|].
  apply (dataset_is_read_back (E := ToyRun.E0)
           4 "dataset.pkl" ToyRun.rand 3 1 ToyRun.s0).
  vm_compute. reflexivity.
Defined.


Lemma main_without_training_touches_the_dataset_only_witness :
  train ToyMore.no_train = false /\
  match main 4 ToyMore.no_train ToySweep.with_file with
  | Ret _ s' | Raise _ s' =>
      fits s' = fits ToySweep.with_file /\
      forall p, p <> dset_path ToyMore.no_train ->
                fs s' !! p = fs ToySweep.with_file !! p
  | OutOfFuel => True
  end.
Proof.
  assert (H : train ToyMore.no_train = false) by reflexivity.
  split; [exact H|].
  exact (main_without_training_touches_the_dataset_only (E := ToyRun.E0)
           4 ToyMore.no_train ToySweep.with_file H).
Defined.

Lemma toy_grid_avoids_dataset :
  Forall (fun c => artifact_path c.1 c.2 <> "dataset.pkl")
         (grid number_of_layers_list hidden_layer_sizes_list).
Proof.
  unfold grid, number_of_layers_list, hidden_layer_sizes_list. simpl.
  repeat (apply Forall_cons; split; [vm_compute; discriminate|]).
  apply Forall_nil. exact I.
Qed.

Lemma main_trains_on_the_existing_dataset_witness :
  overwrite ToySweep.keep = false /\
  train ToySweep.keep = true /\
  fs ToySweep.with_file !! dset_path ToySweep.keep
    = Some (PickleFile ToySweep.d0) /\
  Forall (fun c => artifact_path c.1 c.2 <> dset_path ToySweep.keep)
         (grid number_of_layers_list hidden_layer_sizes_list) /\
  exists s',
    main 4 ToySweep.keep ToySweep.with_file = Ret tt s' /\
    history s' = history ToySweep.with_file /\
    fits s' =
      fits ToySweep.with_file ++
      map fit_log_of (grid number_of_layers_list hidden_layer_sizes_list) /\
    length (fits s') = (length (fits ToySweep.with_file) + 16)%nat /\
    fs s' !! dset_path ToySweep.keep = Some (PickleFile ToySweep.d0) /\
    forall n w,
      n ∈ number_of_layers_list -> w ∈ hidden_layer_sizes_list ->
      exists w0,
        fs s' !! artifact_path n w =
        Some (JoblibFile
                (fit (learner_of n w) ToySweep.d0.1 ToySweep.d0.2 w0).1).
Proof.
  assert (H1 : overwrite ToySweep.keep = false) by reflexivity.
  assert (H2 : train ToySweep.keep = true) by reflexivity.
  assert (H3 : fs ToySweep.with_file !! dset_path ToySweep.keep
               = Some (PickleFile ToySweep.d0)) by reflexivity.
  assert (H4 : Forall (fun c => artifact_path c.1 c.2
                                <> dset_path ToySweep.keep)
                      (grid number_of_layers_list hidden_layer_sizes_list))
    by exact toy_grid_avoids_dataset.
  split; [exact H1|]. split; [exact H2|]. split; [exact H3|].
  split; [exact H4|].
  exact (main_trains_on_the_existing_dataset (E := ToyRun.E0)
           4 ToySweep.keep ToySweep.d0 ToySweep.with_file H1 H2 H3 H4).
Defined.

Lemma main_trains_on_the_generated_dataset_witness :
  games_end (E := ToyRun.E0) Toy.left 4 /\
  winners_ok (E := ToyRun.E0) /\
  train ToySweep.renew = true /\
  (overwrite ToySweep.renew = true \/
   isfile (fs ToySweep.with_file) (dset_path ToySweep.renew) = false) /\
  Forall (fun c => artifact_path c.1 c.2 <> dset_path ToySweep.renew)
         (grid number_of_layers_list hidden_layer_sizes_list) /\
  exists r s1 s',
    create_dataset 4 (dset_path ToySweep.renew)
      (Roster [rand_Bot; rdeep_Bot; bully_Bot]) 10000 1 ToySweep.with_file
      = Ret r s1 /\
    main 4 ToySweep.renew ToySweep.with_file = Ret tt s' /\
    history s' = history s1 /\
    fs s' !! dset_path ToySweep.renew = Some (PickleFile r) /\
    fits s' =
      fits ToySweep.with_file ++
      map fit_log_of (grid number_of_layers_list hidden_layer_sizes_list) /\
    forall n w,
      n ∈ number_of_layers_list -> w ∈ hidden_layer_sizes_list ->
      exists w0,
        fs s' !! artifact_path n w =
        Some (JoblibFile (fit (learner_of n w) r.1 r.2 w0).1).
Proof.
  assert (H1 : games_end (E := ToyRun.E0) Toy.left 4) by apply toy_games_end.
  assert (H2 : winners_ok (E := ToyRun.E0)) by apply toy_winners_ok.
  assert (H3 : train ToySweep.renew = true) by reflexivity.
  assert (H4 : overwrite ToySweep.renew = true \/
               isfile (fs ToySweep.with_file) (dset_path ToySweep.renew)
               = false) by (left; reflexivity).
  assert (H5 : Forall (fun c => artifact_path c.1 c.2
                                <> dset_path ToySweep.renew)
                      (grid number_of_layers_list hidden_layer_sizes_list))
    by exact toy_grid_avoids_dataset.
  split; [exact H1|]. split; [exact H2|]. split; [exact H3|].
  split; [exact H4|]. split; [exact H5|].
  exact (main_trains_on_the_generated_dataset (E := ToyRun.E0)
           Toy.left 4 ToySweep.renew ToySweep.with_file H1 H2 H3 H4 H5).
Defined.

Lemma cycle_yields_round_robin_for_ever_witness :
  ["A"; "B"; "C"] <> [] /\
  length (itertools.take 7 (itertools.make ["A"; "B"; "C"])) = 7%nat /\
  forall i, (i < 7)%nat ->
    itertools.take 7 (itertools.make ["A"; "B"; "C"]) !! i
    = ["A"; "B"; "C"] !! (i mod length ["A"; "B"; "C"])%nat.
Proof.
  assert (H : ["A"; "B"; "C"] <> []) by discriminate.
  split; [exact H|].
  exact (proj1 (cycle_yields_round_robin_for_ever ["A"; "B"; "C"] 7) H).
Defined.

Lemma game_finished_at_generation_adds_nothing_witness :
  can_choose ToyRun.rand ToyMore.idle /\
  finished (generate 1 (world ToyMore.idle)).1 = true /\
  exists s' gl,
    game_body (S 3) ToyRun.rand 1 0 ToyMore.idle = Ret tt s' /\
    data s' = data ToyMore.idle /\ target s' = target ToyMore.idle /\
    result s' = result ToyMore.idle /\
    history s' = history ToyMore.idle ++ [gl] /\
    g_decisions gl = [] /\
    g_final gl = g_start gl.
Proof.
  assert (H1 : can_choose ToyRun.rand ToyMore.idle) by exact I.
  assert (H2 : finished (generate 1 (world ToyMore.idle)).1 = true)
    by reflexivity.
  split; [exact H1|]. split; [exact H2|].
  exact (game_finished_at_generation_adds_nothing (E := ToyRun.E0)
           3 ToyRun.rand 1 0 ToyMore.idle H1 H2).
Defined.

Lemma single_bot_plays_every_game_witness :
  exists r s',
    create_dataset (E := ToyRun.E0) 4 "dataset.pkl"
      (Single (E := ToyRun.E0) "rand") 3 1 ToyRun.s0 = Ret r s' /\
    exists new,
      history s' = history ToyRun.s0 ++ new /\
      Forall (fun g : game_log (E := ToyRun.E0) => g_player g = "rand") new.
Proof.
  eexists _, _. split; [vm_compute; reflexivity|].
  eapply (single_bot_plays_every_game (E := ToyRun.E0)
            4 "dataset.pkl" "rand" 3 1 ToyRun.s0).
  vm_compute. reflexivity.
Defined.

Lemma labels_are_always_won_or_lost_witness :
  exists r s',
    create_dataset 4 "dataset.pkl" ToyRun.bully 3 1 ToyRun.draw_second
      = Ret r s' /\
    Forall (fun l => l = "won" \/ l = "lost") r.2.
Proof.
  eexists _, _. split; [vm_compute; reflexivity|].
  eapply (labels_are_always_won_or_lost (E := ToyRun.E1)
            4 "dataset.pkl" ToyRun.bully 3 1 ToyRun.draw_second).
  vm_compute. reflexivity.
Defined.

Lemma returned_dataset_is_always_paired_witness :
  exists r s',
    create_dataset 4 "dataset.pkl" ToyRun.bully 3 1 ToyRun.draw_second
      = Ret r s' /\
    length r.1 = length r.2.
Proof.
  eexists _, _. split; [vm_compute; reflexivity|].
  eapply (returned_dataset_is_always_paired (E := ToyRun.E1)
            4 "dataset.pkl" ToyRun.bully 3 1 ToyRun.draw_second).
  vm_compute. reflexivity.
Defined.

Lemma class_count_of_a_generated_dataset_witness :
  exists r s',
    create_dataset 4 "dataset.pkl" ToyRun.rand 2 1 ToyRun.s0 = Ret r s' /\
    exists count,
      class_count r.2 = Some count /\
      (forall t, is_Some (count !! t) -> t = "won" \/ t = "lost") /\
      total count = Z.of_nat (length r.1).
Proof.
  eexists _, _. split; [vm_compute; reflexivity|].
  eapply (class_count_of_a_generated_dataset (E := ToyRun.E0)
            4 "dataset.pkl" ToyRun.rand 2 1 ToyRun.s0).
  vm_compute. reflexivity.
Defined.
